(** * Chronos: an asynchronous, level-filtered, file-rotating logger

    A shallow embedding of the Go package [chronos] (levels.go, logperiod.go,
    config.go, main.go) together with the properties of its severity table,
    its rotation policy ([filename]), its dispatcher ([addLog]) and its
    lifecycle ([Init], [Stop]). *)

From Stdlib Require Import ZArith Lia Ascii String.
From Stdlib Require Import DecimalString DecimalN DecimalPos.
From stdpp Require Import base gmap strings list.

Local Open Scope Z_scope.

(** ** Strings *)

Module Str.

(** [n] copies of the character ["0"]. *)
Fixpoint zeros (n : nat) : string :=
  match n with
  | O => ""
  | S n => String "0" (zeros n)
  end.

Definition TAB : string := String "009" "".
Definition LF : string := String "010" "".
Definition ESC : string := String "027" "".

End Str.

(** ** Integer formatting, as done by Go's [time] and [fmt] packages

    Both packages are part of the Go standard library, not of the repository;
    the functions below follow their documented behaviour. *)

Module Fmt.

(** Decimal digits of a natural number, without leading zeros (["0"] for
    zero). *)
Definition digits (n : N) : string :=
  NilEmpty.string_of_uint (N.to_uint n).

(** Digits padded on the left with zeros up to [width] characters. *)
Definition pad0 (width : nat) (n : N) : string :=
  Str.zeros (width - String.length (digits n)) +:+ digits n.

(** [appendInt] of package [time]: the sign, then the magnitude padded with
    zeros to [width] digits. *)
Definition appendInt (x : Z) (width : nat) : string :=
  if x <? 0 then String "-" (pad0 width (Z.abs_N x))
  else pad0 width (Z.abs_N x).

(** [Sprintf("%0<width>d", x)]: the zero padding counts the sign in the
    width. *)
Definition sprintf_0d (width : nat) (x : Z) : string :=
  if x <? 0 then String "-" (pad0 (width - 1) (Z.abs_N x))
  else pad0 width (Z.abs_N x).

(** Reading a decimal numeral back; used to show that formatting loses no
    information. *)
Definition parseN (s : string) : option N :=
  N.of_uint <$> NilEmpty.uint_of_string s.

Definition parseZ (s : string) : option Z :=
  match s with
  | String "-" s' => (fun n => - Z.of_N n) <$> parseN s'
  | _ => Z.of_N <$> parseN s
  end.

End Fmt.

(** ** Wall-clock time, after Go's [time.Time]

    A [Time] is an instant (seconds and nanoseconds since the Unix epoch)
    together with the offset east of UTC, in seconds, of its location at that
    instant.  [Date], [Clock], [ISOWeek] and [Format] are presentation
    functions of the local wall clock, with the proleptic Gregorian calendar
    of package [time]. *)

Module GoTime.

Record Time := mkTime {
  unixSec : Z;
  nsec : Z;
  zoneOffset : Z
}.

Definition secondsPerDay : Z := 86400.
Definition daysPer400Years : Z := 365 * 400 + 97.
Definition daysPer100Years : Z := 365 * 100 + 24.
Definition daysPer4Years : Z := 365 * 4 + 1.

(** Days from 0001-01-01 to 1970-01-01. *)
Definition unixToInternalDays : Z :=
  1969 * 365 + 1969 / 4 - 1969 / 100 + 1969 / 400.

(** Local wall-clock seconds since 0001-01-01 00:00:00. *)
Definition abs (t : Time) : Z :=
  unixSec t + zoneOffset t + unixToInternalDays * secondsPerDay.

Definition absDays (t : Time) : Z := abs t / secondsPerDay.

Definition isLeap (year : Z) : bool :=
  (year mod 4 =? 0) && (negb (year mod 100 =? 0) || (year mod 400 =? 0)).

(** Year and zero-based day of the year of a day count, by cutting off
    400-, 100-, 4- and 1-year cycles. *)
Definition yearDay (d : Z) : Z * Z :=
  let n400 := d / daysPer400Years in
  let d := d - daysPer400Years * n400 in
  let n100 := d / daysPer100Years in
  let n100 := n100 - Z.shiftr n100 2 in
  let d := d - daysPer100Years * n100 in
  let n4 := d / daysPer4Years in
  let d := d - daysPer4Years * n4 in
  let n := d / 365 in
  let n := n - Z.shiftr n 2 in
  let d := d - 365 * n in
  (400 * n400 + 100 * n100 + 4 * n4 + n + 1, d).

(** [daysBefore[m]]: days in a non-leap year before month [m + 1]. *)
Definition daysBefore (m : Z) : Z :=
  match m with
  | 0 => 0 | 1 => 31 | 2 => 59 | 3 => 90 | 4 => 120 | 5 => 151
  | 6 => 181 | 7 => 212 | 8 => 243 | 9 => 273 | 10 => 304 | 11 => 334
  | _ => 365
  end.

(** Month (1..12) and day of the month of a day of the year. *)
Definition monthDay (year yday : Z) : Z * Z :=
  let leap := isLeap year in
  if leap && (yday =? 31 + 29 - 1) then (2, 29)
  else
    let day := if leap && (31 + 29 - 1 <? yday) then yday - 1 else yday in
    let month := day / 31 in
    let e := daysBefore (month + 1) in
    if e <=? day then (month + 1 + 1, day - e + 1)
    else (month + 1, day - daysBefore month + 1).

(** [t.Date()] *)
Definition Date (t : Time) : Z * Z * Z :=
  let '(year, yday) := yearDay (absDays t) in
  let '(month, day) := monthDay year yday in
  (year, month, day).

Definition Year (t : Time) : Z := (Date t).1.1.
Definition Month (t : Time) : Z := (Date t).1.2.
Definition Day (t : Time) : Z := (Date t).2.

(** [t.Clock()] *)
Definition Hour (t : Time) : Z := (abs t mod secondsPerDay) / 3600.
Definition Minute (t : Time) : Z := (abs t mod 3600) / 60.
Definition Second (t : Time) : Z := abs t mod 60.

(** [t.Weekday()], Sunday = 0; 0001-01-01 is a Monday. *)
Definition Weekday (t : Time) : Z := (absDays t + 1) mod 7.

(** [t.ISOWeek()]: the year and week of the Thursday of the timestamp's
    Monday-based week. *)
Definition ISOWeek (t : Time) : Z * Z :=
  let d := 4 - Weekday t in
  let d := if d =? 4 then -3 else d in
  let '(year, yday) := yearDay (absDays t + d) in
  (year, yday / 7 + 1).

(** [time.Date(year, month, day, hour, min, sec, 0, time.UTC)] for arguments
    in their usual ranges. *)
Definition daysSinceEpoch (year : Z) : Z :=
  let y := year - 1 in
  365 * y + y / 4 - y / 100 + y / 400.

Definition DateUTC (year month day hour min sec : Z) : Time :=
  let d := daysSinceEpoch year + daysBefore (month - 1)
           + (if isLeap year && (3 <=? month) then 1 else 0) + (day - 1) in
  mkTime ((d - unixToInternalDays) * secondsPerDay
          + hour * 3600 + min * 60 + sec) 0 0.

(** The layout elements the logger uses, as [Format] recognises them in a
    layout string. *)
Inductive chunk :=
| stdLongYear      (* "2006" *)
| stdZeroMonth     (* "01" *)
| stdZeroDay       (* "02" *)
| stdHour          (* "15" *)
| stdZeroMinute    (* "04" *)
| stdZeroSecond    (* "05" *)
| lit (s : string).

Definition formatChunk (t : Time) (c : chunk) : string :=
  match c with
  | stdLongYear => Fmt.appendInt (Year t) 4
  | stdZeroMonth => Fmt.appendInt (Month t) 2
  | stdZeroDay => Fmt.appendInt (Day t) 2
  | stdHour => Fmt.appendInt (Hour t) 2
  | stdZeroMinute => Fmt.appendInt (Minute t) 2
  | stdZeroSecond => Fmt.appendInt (Second t) 2
  | lit s => s
  end.

(** [t.Format(layout)] for a layout already cut into its elements. *)
Fixpoint Format (t : Time) (layout : list chunk) : string :=
  match layout with
  | [] => ""
  | c :: layout => formatChunk t c +:+ Format t layout
  end.

(** "2006-01-02T15" *)
Definition layoutHour : list chunk :=
  [stdLongYear; lit "-"; stdZeroMonth; lit "-"; stdZeroDay; lit "T"; stdHour].
(** "2006-01-02" *)
Definition layoutDay : list chunk :=
  [stdLongYear; lit "-"; stdZeroMonth; lit "-"; stdZeroDay].
(** "2006-01" *)
Definition layoutMonth : list chunk := [stdLongYear; lit "-"; stdZeroMonth].
(** "2006" *)
Definition layoutYear : list chunk := [stdLongYear].
(** "15:04:05" *)
Definition layoutClock : list chunk :=
  [stdHour; lit ":"; stdZeroMinute; lit ":"; stdZeroSecond].

End GoTime.

Import GoTime.



(** ** levels.go *)

(** Level names used throughout the logger and configuration. *)
Definition INFO : string := "INFO".
Definition DEBUG : string := "DEBUG".
Definition WARN : string := "WARN".
Definition ERROR : string := "ERROR".
Definition FATAL : string := "FATAL".

(** [logLevels] maps level names to their internal severity for filtering. *)
Definition logLevels : gmap string Z :=
  <[INFO := 1]> (<[DEBUG := 2]> (<[WARN := 3]> (<[ERROR := 4]>
    (<[FATAL := 5]> ∅)))).

(** The index expression [logLevels[name]]: a missing key reads as the zero
    value. *)
Definition rank (name : string) : Z := default 0 (logLevels !! name).

(** ** logperiod.go *)

Definition LogPeriod : Type := string.

Definition LogPeriodHour : LogPeriod := "Hour".
Definition LogPeriodDay : LogPeriod := "Day".
Definition LogPeriodWeek : LogPeriod := "Week".
Definition LogPeriodMonth : LogPeriod := "Month".
Definition LogPeriodYear : LogPeriod := "Year".

(** ** config.go *)

Module Config.
Record t := mk {
  AppName : string;
  Location : string;
  FilePeriod : LogPeriod;
  Level : string;
  AutoStop : bool
}.

(** The zero value [Config{}]. *)
Definition zero : t := mk "" "" "" "" false.

Definition withLocation (x : string) (c : t) : t :=
  mk (AppName c) x (FilePeriod c) (Level c) (AutoStop c).
Definition withFilePeriod (x : LogPeriod) (c : t) : t :=
  mk (AppName c) (Location c) x (Level c) (AutoStop c).
Definition withLevel (x : string) (c : t) : t :=
  mk (AppName c) (Location c) (FilePeriod c) x (AutoStop c).
End Config.

(** ** main.go: data *)

(** [Log] represents a single log entry with timestamp, level and message. *)
Module Log.
Record t := mk {
  TimeStamp : Time;
  Level : string;
  Message : string
}.
End Log.

(** A buffered channel of log entries: [make(chan Log, capacity)]. *)
Record Chan := mkChan {
  buf : list Log.t;
  capacity : Z;
  closed : bool
}.

(** [Logging] is the logger instance.  [config] is a pointer into the heap of
    configurations and [logChan] a reference into the heap of channels; the
    struct itself is never written after [newLogging], so a [*Logging] is
    represented by its value. *)
Record Logging := mkLogging {
  config : nat;
  path : string;
  logChan : nat;
  logLevel : Z
}.

(** An external handler [func(time.Time, string, string)], identified by a
    number. *)
Definition Handler : Type := nat.

(** Goroutines spawned by the package. *)
Inductive Goroutine :=
| Writer (l : Logging)      (* go logger.start() *)
| SignalStopper.            (* go func() { <-sigc; Stop() }() *)

(** The state of the process as far as the package reads or writes it. *)
Record World := mkWorld {
  GOOS : string;                        (* runtime.GOOS *)
  openFails : list string;              (* paths os.OpenFile fails on *)
  writeFails : list string;             (* paths WriteString fails on *)
  configs : list Config.t;              (* heap of Config structs *)
  chans : list Chan;                    (* heap of channels *)
  logger : option Logging;              (* var logger *Logging *)
  handler : option Handler;             (* the external handler reference *)
  handled : list (Handler * Log.t);     (* handler invocations so far *)
  stdout : list string;                 (* what was printed, in order *)
  stderr : list string;
  mkdirs : list string;                 (* os.MkdirAll / os.Mkdir calls *)
  goroutines : list Goroutine;          (* goroutines started *)
  files : list (string * string)        (* (path, text) appended, in order *)
}.

(** Field updates. *)
Definition set_configs (x : list Config.t) (w : World) : World :=
  let 'mkWorld g o wf _ ch lg h hd so se md gr fs := w in
  mkWorld g o wf x ch lg h hd so se md gr fs.
Definition set_chans (x : list Chan) (w : World) : World :=
  let 'mkWorld g o wf cs _ lg h hd so se md gr fs := w in
  mkWorld g o wf cs x lg h hd so se md gr fs.
Definition set_logger (x : option Logging) (w : World) : World :=
  let 'mkWorld g o wf cs ch _ h hd so se md gr fs := w in
  mkWorld g o wf cs ch x h hd so se md gr fs.
Definition set_handler (x : option Handler) (w : World) : World :=
  let 'mkWorld g o wf cs ch lg _ hd so se md gr fs := w in
  mkWorld g o wf cs ch lg x hd so se md gr fs.
Definition set_stdout (x : list string) (w : World) : World :=
  let 'mkWorld g o wf cs ch lg h hd _ se md gr fs := w in
  mkWorld g o wf cs ch lg h hd x se md gr fs.
Definition set_stderr (x : list string) (w : World) : World :=
  let 'mkWorld g o wf cs ch lg h hd so _ md gr fs := w in
  mkWorld g o wf cs ch lg h hd so x md gr fs.
Definition set_mkdirs (x : list string) (w : World) : World :=
  let 'mkWorld g o wf cs ch lg h hd so se _ gr fs := w in
  mkWorld g o wf cs ch lg h hd so se x gr fs.
Definition set_goroutines (x : list Goroutine) (w : World) : World :=
  let 'mkWorld g o wf cs ch lg h hd so se md _ fs := w in
  mkWorld g o wf cs ch lg h hd so se md x fs.
Definition set_files (x : list (string * string)) (w : World) : World :=
  let 'mkWorld g o wf cs ch lg h hd so se md gr _ := w in
  mkWorld g o wf cs ch lg h hd so se md gr x.

(** How a call ends: it returns, its goroutine parks on a channel operation,
    or it panics. *)
Inductive Outcome (A : Type) :=
| Returned (a : A) (w : World)
| Blocked (w : World)
| Panicked (reason : string) (w : World).
Arguments Returned {A} a w.
Arguments Blocked {A} w.
Arguments Panicked {A} reason w.

(** Calls are state transformers that end in an [Outcome]. *)
Definition M (A : Type) : Type := World -> Outcome A.

#[global] Instance M_ret : MRet M := fun A a w => Returned a w.

#[global] Instance M_bind : MBind M := fun A B k m w =>
  match m w with
  | Returned a w' => k a w'
  | Blocked w' => Blocked w'
  | Panicked r w' => Panicked r w'
  end.

Definition get : M World := fun w => Returned w w.
Definition modify (f : World -> World) : M unit := fun w => Returned tt (f w).
Definition panic {A} (reason : string) : M A := fun w => Panicked reason w.
Definition park {A} : M A := fun w => Blocked w.

(** The world an outcome leaves behind. *)
Definition world_of {A} (o : Outcome A) : World :=
  match o with
  | Returned _ w | Blocked w | Panicked _ w => w
  end.

Definition panicked {A} (o : Outcome A) : bool :=
  match o with
  | Panicked _ _ => true
  | _ => false
  end.

(** *** Channel operations *)

(** [make(chan Log, n)] *)
Definition make_chan (n : Z) : M nat := fun w =>
  Returned (length (chans w))
    (set_chans (chans w ++ [mkChan [] n false]) w).

(** [c <- x].  A reference outside the heap stands for the nil channel. *)
Definition send (c : nat) (x : Log.t) : M unit :=
  w ← get;
  match chans w !! c with
  | None => park
  | Some ch =>
      if closed ch then panic "send on closed channel"
      else if Z.of_nat (length (buf ch)) <? capacity ch then
        modify (set_chans
                  (<[c := mkChan (buf ch ++ [x]) (capacity ch) false]>
                     (chans w)))
      else park
  end.

(** [close(c)] *)
Definition close (c : nat) : M unit :=
  w ← get;
  match chans w !! c with
  | None => panic "close of nil channel"
  | Some ch =>
      if closed ch then panic "close of closed channel"
      else modify (set_chans
                     (<[c := mkChan (buf ch) (capacity ch) true]> (chans w)))
  end.

(** *** Output *)

Definition Printf (line : string) : M unit :=
  modify (fun w => set_stdout (stdout w ++ [line]) w).

Definition Fprintf_stderr (line : string) : M unit :=
  modify (fun w => set_stderr (stderr w ++ [line]) w).

(** [os.MkdirAll(dir, 0755)] and [os.Mkdir(dir, 0755)]; the package ignores
    their results. *)
Definition Mkdir (dir : string) : M unit :=
  modify (fun w => set_mkdirs (mkdirs w ++ [dir]) w).

(** [go f()] *)
Definition go (g : Goroutine) : M unit :=
  modify (fun w => set_goroutines (goroutines w ++ [g]) w).

(** [filepath.Join(dir, file)], without the cleaning of the result. *)
Definition Join (dir file : string) : string := dir +:+ "/" +:+ file.

(** Reading [*cfg]. *)
Definition load (cfg : nat) : M Config.t :=
  w ← get;
  match configs w !! cfg with
  | None => panic "invalid memory address or nil pointer dereference"
  | Some c => mret c
  end.

(** Writing [*cfg]. *)
Definition store (cfg : nat) (c : Config.t) : M unit :=
  modify (fun w => set_configs (<[cfg := c]> (configs w)) w).

(** [&Config{}] *)
Definition new_config : M nat := fun w =>
  Returned (length (configs w)) (set_configs (configs w ++ [Config.zero]) w).

(** ** main.go: operations *)

(** [newLogging] creates a new logger writing to the configured location and
    filtering below the provided log level. *)
Definition newLogging (cfg : nat) (logLevel : Z) : M Logging :=
  c ← load cfg;
  Mkdir (Config.Location c);;
  ch ← make_chan 10000;
  mret (mkLogging cfg (Config.Location c) ch logLevel).

(** [Init] initializes the package-level logger from configuration and starts
    the background writer goroutine.  The result is the returned [error]
    ([None] for nil). *)
Definition Init (cfg : option nat) : M (option string) :=
  cfg ← match cfg with
        | None => new_config
        | Some p => mret p
        end;
  c ← load cfg;
  if (Config.AppName c =? "")%string then mret (Some "AppName is required")
  else
    w ← get;
    let c :=
      if (Config.Location c =? "")%string then
        if (GOOS w =? "windows")%string
        then Config.withLocation
               ("C:\ProgramData\" +:+ Config.AppName c +:+ "\logs") c
        else Config.withLocation ("/var/log/" +:+ Config.AppName c) c
      else c in
    let c :=
      if (Config.FilePeriod c =? "")%string
      then Config.withFilePeriod LogPeriodHour c else c in
    let c :=
      if (Config.Level c =? "")%string then Config.withLevel INFO c else c in
    store cfg c;;
    match logLevels !! Config.Level c with
    | None => mret (Some ("invalid log level: " +:+ Config.Level c))
    | Some logLevel =>
        l ← newLogging cfg logLevel;
        modify (set_logger (Some l));;
        Mkdir (Config.Location c);;
        go (Writer l);;
        (if Config.AutoStop c then go SignalStopper else mret tt);;
        mret None
    end.

(** [fmt.Sprintf("nexus_%s.log", datePart)] *)
Definition nexus (datePart : string) : string :=
  "nexus_" +:+ datePart +:+ ".log".

(** [filename] derives the log filename for the provided timestamp according
    to the configured rotation period; [cfg] is the value of [*l.config]. *)
Definition filename (cfg : Config.t) (t : Time) : string :=
  let p := Config.FilePeriod cfg in
  if (p =? LogPeriodHour)%string then nexus (Format t layoutHour)
  else if (p =? LogPeriodDay)%string then nexus (Format t layoutDay)
  else if (p =? LogPeriodWeek)%string then
    let '(y, w) := ISOWeek t in
    nexus (Fmt.sprintf_0d 4 y +:+ "-" +:+ Fmt.sprintf_0d 2 w)
  else if (p =? LogPeriodMonth)%string then nexus (Format t layoutMonth)
  else if (p =? LogPeriodYear)%string then nexus (Format t layoutYear)
  else "nexus_" +:+ Format t layoutDay +:+ ".log".

(** One turn of the loop [for log := range l.logChan] of [start], the
    background writer.  The result tells whether the loop goes on.  The
    messages on stderr are printed without the text of the system error. *)
Definition start_step (l : Logging) : M bool :=
  w ← get;
  match chans w !! logChan l with
  | None => park
  | Some ch =>
      match buf ch with
      | [] => if closed ch then mret false else park
      | log :: rest =>
          modify (set_chans
                    (<[logChan l := mkChan rest (capacity ch) (closed ch)]>
                       (chans w)));;
          c ← load (config l);
          let fullpath := Join (path l) (filename c (Log.TimeStamp log)) in
          if bool_decide (fullpath ∈ openFails w) then
            Fprintf_stderr
              ("ERROR: could not open log file " +:+ fullpath +:+ Str.LF);;
            mret true
          else
            let output :=
              Format (Log.TimeStamp log) layoutClock +:+ Str.TAB
              +:+ Log.Level log +:+ Str.TAB +:+ Log.Message log +:+ Str.LF in
            (if bool_decide (fullpath ∈ writeFails w) then
               Fprintf_stderr
                 ("ERROR: could not write to log file " +:+ fullpath
                  +:+ Str.LF)
             else
               modify (fun w => set_files (files w ++ [(fullpath, output)]) w));;
            mret true
      end
  end.

(** Color codes for terminal output. *)
Definition colorRed : string := Str.ESC +:+ "[31m".
Definition colorGreen : string := Str.ESC +:+ "[32m".
Definition colorYellow : string := Str.ESC +:+ "[33m".
Definition colorBlue : string := Str.ESC +:+ "[34m".
Definition colorPurple : string := Str.ESC +:+ "[35m".
Definition colorReset : string := Str.ESC +:+ "[0m".

Definition colorOf (level : string) : string :=
  if (level =? "FATAL")%string then colorPurple
  else if (level =? "ERROR")%string then colorRed
  else if (level =? "WARN")%string then colorYellow
  else if (level =? "INFO")%string then colorGreen
  else if (level =? "DEBUG")%string then colorBlue
  else colorReset.

(** The line [addLog] prints for an entry. *)
Definition consoleLine (log : Log.t) : string :=
  colorOf (Log.Level log) +:+ Format (Log.TimeStamp log) layoutClock
  +:+ Str.TAB +:+ Log.Level log +:+ Str.TAB +:+ Log.Message log
  +:+ colorReset +:+ Str.LF.

(** [addLog] applies level filtering, writes to console with color, and
    enqueues the entry for async file persistence.  [l] is the receiver, a
    possibly nil [*Logging]. *)
Definition addLog (l : option Logging) (log : Log.t) : M unit :=
  w ← get;
  match logger w with
  | None => mret tt
  | Some _ =>
      match l with
      | None => panic "invalid memory address or nil pointer dereference"
      | Some l =>
          if rank (Log.Level log) <? logLevel l then mret tt
          else
            Printf (consoleLine log);;
            send (logChan l) log
      end
  end.

(** [Stop] gracefully shuts down the logger and releases the package-level
    logger.  The mutex [mu] it holds meanwhile is free whenever a call starts
    and is released when it ends, so it is left out. *)
Definition Stop : M unit :=
  w ← get;
  match logger w with
  | None => mret tt
  | Some l =>
      close (logChan l);;
      modify (set_logger None)
  end.

(** The level helpers; [now] is the reading of [time.Now()]. *)
Definition Error (now : Time) (msg : string) : M unit :=
  w ← get; addLog (logger w) (Log.mk now "ERROR" msg).
Definition Info (now : Time) (msg : string) : M unit :=
  w ← get; addLog (logger w) (Log.mk now "INFO" msg).
Definition Debug (now : Time) (msg : string) : M unit :=
  w ← get; addLog (logger w) (Log.mk now "DEBUG" msg).
Definition Warn (now : Time) (msg : string) : M unit :=
  w ← get; addLog (logger w) (Log.mk now "WARN" msg).
Definition Fatal (now : Time) (msg : string) : M unit :=
  w ← get; addLog (logger w) (Log.mk now "FATAL" msg).

(** Modelled from the spec: [SetHandler], which main.go does not declare
    (only the tests and the README call it): it replaces the process-wide
    external-handler reference; passing none clears it. *)
Definition SetHandler (h : option Handler) : M unit :=
  modify (set_handler h).

(** ** Runs of the package *)

(** What the host program can do with the package: build and overwrite
    configurations (it keeps the pointer it hands to [Init]), call the
    exported functions, and let the goroutines run. *)
Inductive Call :=
| CallNewConfig (c : Config.t)         (* cfg := &Config{...} *)
| CallSetConfig (cfg : nat) (c : Config.t)   (* *cfg = Config{...} *)
| CallInit (cfg : option nat)
| CallStop
| CallSetHandler (h : option Handler)
| CallError (now : Time) (msg : string)
| CallInfo (now : Time) (msg : string)
| CallDebug (now : Time) (msg : string)
| CallWarn (now : Time) (msg : string)
| CallFatal (now : Time) (msg : string)
| StepWriter (l : Logging)             (* a turn of a writer goroutine *)
| ResumeSend (c : nat) (log : Log.t).  (* a parked [c <- log] is retried *)

Definition exec (c : Call) : M unit :=
  match c with
  | CallNewConfig c =>
      modify (fun w => set_configs (configs w ++ [c]) w)
  | CallSetConfig cfg c => store cfg c
  | CallInit cfg => Init cfg;; mret tt
  | CallStop => Stop
  | CallSetHandler h => SetHandler h
  | CallError now msg => Error now msg
  | CallInfo now msg => Info now msg
  | CallDebug now msg => Debug now msg
  | CallWarn now msg => Warn now msg
  | CallFatal now msg => Fatal now msg
  | StepWriter l => start_step l;; mret tt
  | ResumeSend c log => send c log
  end.

(** The process before the package is used. *)
Definition initial (goos : string) (openFails writeFails : list string)
  : World :=
  mkWorld goos openFails writeFails [] [] None None [] [] [] [] [] [].

(** Worlds a program can be in: the initial one and those where a call or a
    writer turn ended, returned or parked. *)
Inductive reachable : World -> Prop :=
| reach_initial goos o wr : reachable (initial goos o wr)
| reach_step w c :
    reachable w ->
    panicked (exec c w) = false ->
    reachable (world_of (exec c w)).

(** The package-level logger, when set, owns an open channel. *)
Definition logger_ok (w : World) : Prop :=
  match logger w with
  | None => True
  | Some l => exists ch, chans w !! logChan l = Some ch /\ closed ch = false
  end.

(** The configuration [Init] leaves in [*cfg] once it has filled in the
    unset fields. *)
Definition defaulted (goos : string) (c : Config.t) : Config.t :=
  let c :=
    if (Config.Location c =? "")%string then
      if (goos =? "windows")%string
      then Config.withLocation
             ("C:\ProgramData\" +:+ Config.AppName c +:+ "\logs") c
      else Config.withLocation ("/var/log/" +:+ Config.AppName c) c
    else c in
  let c :=
    if (Config.FilePeriod c =? "")%string
    then Config.withFilePeriod LogPeriodHour c else c in
  if (Config.Level c =? "")%string then Config.withLevel INFO c else c.

(** ** Rotation buckets *)

(** The five recognised rotation periods. *)
Inductive Cadence := Hourly | Daily | Weekly | Monthly | Yearly.

Definition cadence_of (p : LogPeriod) : option Cadence :=
  if (p =? LogPeriodHour)%string then Some Hourly
  else if (p =? LogPeriodDay)%string then Some Daily
  else if (p =? LogPeriodWeek)%string then Some Weekly
  else if (p =? LogPeriodMonth)%string then Some Monthly
  else if (p =? LogPeriodYear)%string then Some Yearly
  else None.

(** The bucket of a timestamp: its calendar hour, calendar day, ISO 8601
    week, calendar month or calendar year. *)
Definition bucket (c : Cadence) (t : Time) : list Z :=
  match c with
  | Hourly => [Year t; Month t; Day t; Hour t]
  | Daily => [Year t; Month t; Day t]
  | Weekly => [(ISOWeek t).1; (ISOWeek t).2]
  | Monthly => [Year t; Month t]
  | Yearly => [Year t]
  end.

(** The date part of the filename, per recognised period. *)
Definition datePart (c : Cadence) (t : Time) : string :=
  match c with
  | Hourly => Format t layoutHour
  | Daily => Format t layoutDay
  | Weekly =>
      Fmt.sprintf_0d 4 (ISOWeek t).1 +:+ "-" +:+ Fmt.sprintf_0d 2 (ISOWeek t).2
  | Monthly => Format t layoutMonth
  | Yearly => Format t layoutYear
  end.

(** ** Sample data *)

Definition cfgHour : Config.t :=
  Config.mk "test" "/tmp" LogPeriodHour INFO false.
Definition cfgWeek : Config.t :=
  Config.mk "nexus" "/var/log/nexus" LogPeriodWeek WARN false.
Definition cfgMonth : Config.t :=
  Config.mk "nexus" "/var/log/nexus" LogPeriodMonth WARN false.
Definition cfg24h : Config.t :=
  Config.mk "nexus" "/var/log/nexus" "24h" "" false.

(** A Linux process that has built one configuration. *)
Definition host (c : Config.t) : World :=
  world_of (exec (CallNewConfig c) (initial "linux" [] [])).

(** A running logger at threshold INFO, as [Init] leaves it from
    [cfgHour]. *)
Definition running : World := world_of (Init (Some 0%nat) (host cfgHour)).
Definition runningLogger : Logging := mkLogging 0 "/tmp" 0 1.

(** The same with the external handler number 7 registered. *)
Definition withHandler : World :=
  world_of (SetHandler (Some 7%nat) running).

(** ** The writer loop and its callers *)

(** The first [turns] turns of the loop of [start]; the result tells whether
    the loop is still going on after them. *)
Fixpoint start (turns : nat) (l : Logging) : M bool :=
  match turns with
  | O => mret true
  | S n =>
      more ← start_step l;
      if (more : bool) then start n l else mret false
  end.

(** A caller submitting entries one after the other. *)
Fixpoint submit (l : option Logging) (logs : list Log.t) : M unit :=
  match logs with
  | [] => mret tt
  | log :: logs => addLog l log;; submit l logs
  end.

(** The file a writer turn opens for an entry and the line it writes. *)
Definition fullpath (l : Logging) (c : Config.t) (log : Log.t) : string :=
  Join (path l) (filename c (Log.TimeStamp log)).

Definition output (log : Log.t) : string :=
  Format (Log.TimeStamp log) layoutClock +:+ Str.TAB
  +:+ Log.Level log +:+ Str.TAB +:+ Log.Message log +:+ Str.LF.

(** What one entry adds to the files and to stderr, given the paths that
    cannot be opened and those that cannot be written. *)
Definition entry_files (o wf : list string) (l : Logging) (c : Config.t)
    (log : Log.t) : list (string * string) :=
  if bool_decide (fullpath l c log ∈ o) then []
  else if bool_decide (fullpath l c log ∈ wf) then []
  else [(fullpath l c log, output log)].

Definition entry_stderr (o wf : list string) (l : Logging) (c : Config.t)
    (log : Log.t) : list string :=
  if bool_decide (fullpath l c log ∈ o) then
    ["ERROR: could not open log file " +:+ fullpath l c log +:+ Str.LF]
  else if bool_decide (fullpath l c log ∈ wf) then
    ["ERROR: could not write to log file " +:+ fullpath l c log +:+ Str.LF]
  else [].

(** The entries a logger lets through. *)
Definition passes (l : Logging) (log : Log.t) : bool :=
  negb (rank (Log.Level log) <? logLevel l).

(** How one operation changes a channel: an entry is appended while there is
    room, the head entry is taken, or the channel is closed. *)
Inductive chan_step : Chan -> Chan -> Prop :=
| chan_send ch x :
    closed ch = false -> Z.of_nat (length (buf ch)) < capacity ch ->
    chan_step ch (mkChan (buf ch ++ [x]) (capacity ch) false)
| chan_recv ch x rest :
    buf ch = x :: rest ->
    chan_step ch (mkChan rest (capacity ch) (closed ch))
| chan_close ch :
    closed ch = false ->
    chan_step ch (mkChan (buf ch) (capacity ch) true).

(** The channels the writer goroutines read, in the order the goroutines
    were started. *)
Fixpoint writer_chans (gs : list Goroutine) : list nat :=
  match gs with
  | [] => []
  | Writer l :: gs => logChan l :: writer_chans gs
  | SignalStopper :: gs => writer_chans gs
  end.

(** Every queue holds at most its 10000 entries. *)
Definition queues_bounded (w : World) : Prop :=
  forall i ch, chans w !! i = Some ch ->
    capacity ch = 10000 /\ Z.of_nat (length (buf ch)) <= capacity ch.

(** What a call or a writer turn does to the channels and the goroutines:
    nothing, one step of one channel, or a new channel with its writer. *)
Inductive heap_step (w w' : World) : Prop :=
| heap_same :
    chans w' = chans w -> goroutines w' = goroutines w -> heap_step w w'
| heap_chan i ch ch' :
    chans w !! i = Some ch -> chan_step ch ch' ->
    chans w' = <[i := ch']> (chans w) -> goroutines w' = goroutines w ->
    heap_step w w'
| heap_new l extra :
    logChan l = length (chans w) ->
    chans w' = chans w ++ [mkChan [] 10000 false] ->
    goroutines w' = goroutines w ++ Writer l :: extra ->
    writer_chans extra = [] ->
    heap_step w w'.


(** ** Runs that leave a rotation period alone *)

(** The call [c], made in [w], does not overwrite the configuration [p]
    with another rotation period. *)
Definition keeps_period (p : nat) (w : World) (c : Call) : bool :=
  match c with
  | CallSetConfig q c' =>
      if bool_decide (q = p) then
        match configs w !! p with
        | Some c0 => (Config.FilePeriod c' =? Config.FilePeriod c0)%string
        | None => true
        end
      else true
  | _ => true
  end.

(** Runs of calls and goroutine turns none of which overwrites the rotation
    period of the configuration [p]. *)
Inductive steps_keeping (p : nat) : World -> World -> Prop :=
| keeping_refl w : steps_keeping p w w
| keeping_step w w' c :
    steps_keeping p w w' -> keeps_period p w' c = true ->
    steps_keeping p w (world_of (exec c w')).

(** * Properties *)

(** ** Strings *)

Module StrFacts.

Lemma length_app (s t : string) :
  String.length (s +:+ t) = (String.length s + String.length t)%nat.
Proof. induction s as [|a s IH]; simpl; [done|]. by rewrite <- IH. Qed.

Lemma app_cons a (s t : string) : String a s +:+ t = String a (s +:+ t).
Proof. reflexivity. Qed.

Lemma app_nil_r (s : string) : s +:+ "" = s.
Proof. induction s as [|a s IH]; [done|]. by rewrite app_cons, IH. Qed.

Lemma app_assoc (s t u : string) : (s +:+ t) +:+ u = s +:+ (t +:+ u).
Proof. induction s as [|a s IH]; [done|]. by rewrite !app_cons, IH. Qed.

(** Two concatenations whose left parts have the same length agree
    componentwise, and likewise for right parts. *)
Lemma app_inj_len_l (s1 s2 t1 t2 : string) :
  String.length s1 = String.length s2 ->
  s1 +:+ t1 = s2 +:+ t2 -> s1 = s2 /\ t1 = t2.
Proof.
  revert s2. induction s1 as [|a s1 IH]; intros [|b s2] Hl He;
    try discriminate.
  - split; [done|exact He].
  - rewrite !app_cons in He. injection He as -> He. injection Hl as Hl.
    by destruct (IH s2 Hl He) as [-> ->].
Qed.

Lemma app_inj_len_r (s1 s2 t1 t2 : string) :
  String.length t1 = String.length t2 ->
  s1 +:+ t1 = s2 +:+ t2 -> s1 = s2 /\ t1 = t2.
Proof.
  intros Hl He. apply app_inj_len_l; [|done].
  apply (f_equal String.length) in He. rewrite !length_app in He. lia.
Qed.

End StrFacts.

(** ** Facts about formatting *)

Module FmtFacts.
Import Fmt.

Lemma parseN_digits n : parseN (digits n) = Some n.
Proof.
  unfold parseN, digits. rewrite NilEmpty.usu. simpl.
  by rewrite DecimalN.Unsigned.of_to.
Qed.

Lemma parseN_zeros k s : parseN (Str.zeros k +:+ s) = parseN s.
Proof.
  induction k as [|k IH]; [done|].
  change (Str.zeros (S k) +:+ s) with (String "0" (Str.zeros k +:+ s)).
  revert IH. unfold parseN. cbn [NilEmpty.uint_of_string].
  destruct (NilEmpty.uint_of_string (Str.zeros k +:+ s)) as [d|];
    destruct (NilEmpty.uint_of_string s) as [d'|]; simpl; congruence.
Qed.

Lemma parseN_pad0 w n : parseN (pad0 w n) = Some n.
Proof. unfold pad0. by rewrite parseN_zeros, parseN_digits. Qed.

Lemma parseN_minus s : parseN (String "-" s) = None.
Proof. unfold parseN. simpl. by destruct (NilEmpty.uint_of_string s). Qed.

Lemma parseZ_of_parseN s n : parseN s = Some n -> parseZ s = Some (Z.of_N n).
Proof.
  destruct s as [|a s]; [by intros [= <-]|].
  destruct (decide (a = "-"%char)) as [->|Hne].
  - by rewrite parseN_minus.
  - intros Hs. transitivity (Z.of_N <$> parseN (String a s)); [|by rewrite Hs].
    by destruct a as [[] [] [] [] [] [] [] []].
Qed.

Lemma parseZ_neg s n :
  parseN s = Some n -> parseZ (String "-" s) = Some (- Z.of_N n).
Proof. intros Hs. simpl. by rewrite Hs. Qed.

(** [appendInt] can be read back: formatting an integer loses nothing,
    whatever the width. *)
Lemma parseZ_appendInt x w : parseZ (appendInt x w) = Some x.
Proof.
  unfold appendInt. destruct (Z.ltb_spec x 0).
  - rewrite (parseZ_neg _ _ (parseN_pad0 _ _)). f_equal. lia.
  - rewrite (parseZ_of_parseN _ _ (parseN_pad0 _ _)). f_equal. lia.
Qed.

Lemma parseZ_sprintf_0d w x : parseZ (sprintf_0d w x) = Some x.
Proof.
  unfold sprintf_0d. destruct (Z.ltb_spec x 0).
  - rewrite (parseZ_neg _ _ (parseN_pad0 _ _)). f_equal. lia.
  - rewrite (parseZ_of_parseN _ _ (parseN_pad0 _ _)). f_equal. lia.
Qed.

Lemma appendInt_inj w x y : appendInt x w = appendInt y w -> x = y.
Proof.
  intros He. apply (f_equal parseZ) in He.
  rewrite !parseZ_appendInt in He. congruence.
Qed.

Lemma sprintf_0d_inj w x y : sprintf_0d w x = sprintf_0d w y -> x = y.
Proof.
  intros He. apply (f_equal parseZ) in He.
  rewrite !parseZ_sprintf_0d in He. congruence.
Qed.

(** A property checked on every number below one hundred. *)
Lemma below_100 (P : Z -> Prop) :
  Forall P (seqZ 0 100) -> forall x, 0 <= x < 100 -> P x.
Proof.
  intros Hall x Hx. rewrite Forall_forall in Hall.
  apply Hall, elem_of_seqZ. lia.
Qed.

(** Numbers below one hundred take exactly two characters. *)
Lemma length_appendInt_2 x :
  0 <= x < 100 -> String.length (appendInt x 2) = 2%nat.
Proof.
  apply (below_100 (fun x => String.length (appendInt x 2) = 2%nat)).
  vm_compute. repeat constructor.
Qed.

Lemma length_sprintf_02d x :
  0 <= x < 100 -> String.length (sprintf_0d 2 x) = 2%nat.
Proof.
  apply (below_100 (fun x => String.length (sprintf_0d 2 x) = 2%nat)).
  vm_compute. repeat constructor.
Qed.

(** Fields at the head of a string are recovered together with the rest. *)
Lemma appendInt_app_inj w x1 x2 r1 r2 :
  String.length r1 = String.length r2 ->
  appendInt x1 w +:+ r1 = appendInt x2 w +:+ r2 -> x1 = x2 /\ r1 = r2.
Proof.
  intros Hl He. apply StrFacts.app_inj_len_r in He as [He ->]; [|done].
  split; [by eapply appendInt_inj|done].
Qed.

Lemma appendInt_2_app_inj x1 x2 r1 r2 :
  0 <= x1 < 100 -> 0 <= x2 < 100 ->
  appendInt x1 2 +:+ r1 = appendInt x2 2 +:+ r2 -> x1 = x2 /\ r1 = r2.
Proof.
  intros H1 H2 He. apply StrFacts.app_inj_len_l in He as [He ->].
  - split; [by eapply appendInt_inj|done].
  - by rewrite !length_appendInt_2.
Qed.

Lemma sprintf_0d_app_inj w x1 x2 r1 r2 :
  String.length r1 = String.length r2 ->
  sprintf_0d w x1 +:+ r1 = sprintf_0d w x2 +:+ r2 -> x1 = x2 /\ r1 = r2.
Proof.
  intros Hl He. apply StrFacts.app_inj_len_r in He as [He ->]; [|done].
  split; [by eapply sprintf_0d_inj|done].
Qed.

End FmtFacts.

(** ** Facts about the calendar *)

Module CalFacts.

Lemma shiftr2 n : Z.shiftr n 2 = n / 4.
Proof. by rewrite Z.shiftr_div_pow2. Qed.

Lemma yearDay_yday d : 0 <= (yearDay d).2 <= 365.
Proof.
  unfold yearDay, daysPer400Years, daysPer100Years, daysPer4Years.
  cbn [snd]. rewrite !shiftr2.
  Z.div_mod_to_equations; lia.
Qed.

(** Only leap years have a 366th day. *)
Lemma yearDay_leap d : (yearDay d).2 = 365 -> isLeap (yearDay d).1 = true.
Proof.
  unfold yearDay, isLeap, daysPer400Years, daysPer100Years, daysPer4Years.
  cbn [fst snd]. rewrite !shiftr2. intros H.
  rewrite andb_true_iff, orb_true_iff, negb_true_iff, !Z.eqb_eq, Z.eqb_neq.
  Z.div_mod_to_equations; lia.
Qed.

Ltac split_leb :=
  match goal with
  | |- context [?a <=? ?b] => destruct (Z.leb_spec a b)
  end.

Ltac month_cases m :=
  assert (m = 0 \/ m = 1 \/ m = 2 \/ m = 3 \/ m = 4 \/ m = 5 \/ m = 6
          \/ m = 7 \/ m = 8 \/ m = 9 \/ m = 10 \/ m = 11) as Hc by lia;
  destruct_or!; subst m; simpl; split_leb; simpl; lia.

Lemma monthDay_bounds y yd :
  0 <= yd <= 365 -> (yd = 365 -> isLeap y = true) ->
  1 <= (monthDay y yd).1 <= 12 /\ 1 <= (monthDay y yd).2 <= 31.
Proof.
  intros Hyd Hl. unfold monthDay. change (31 + 29 - 1) with 59.
  destruct (isLeap y); cbn [andb].
  - destruct (Z.eqb_spec yd 59); [simpl; lia|].
    destruct (Z.ltb_spec 59 yd).
    + assert (Hm : 0 <= (yd - 1) / 31 <= 11) by (Z.div_mod_to_equations; lia).
      assert (Hd : 31 * ((yd - 1) / 31) <= yd - 1 < 31 * ((yd - 1) / 31) + 31)
        by (Z.div_mod_to_equations; lia).
      revert Hm Hd. generalize ((yd - 1) / 31). intros m Hm Hd.
      month_cases m.
    + assert (Hm : 0 <= yd / 31 <= 1) by (Z.div_mod_to_equations; lia).
      assert (Hd : 31 * (yd / 31) <= yd < 31 * (yd / 31) + 31)
        by (Z.div_mod_to_equations; lia).
      revert Hm Hd. generalize (yd / 31). intros m Hm Hd.
      month_cases m.
  - assert (yd <> 365) by (intros ->; by specialize (Hl eq_refl)).
    assert (Hm : 0 <= yd / 31 <= 11) by (Z.div_mod_to_equations; lia).
    assert (Hd : 31 * (yd / 31) <= yd < 31 * (yd / 31) + 31)
      by (Z.div_mod_to_equations; lia).
    revert Hm Hd. generalize (yd / 31). intros m Hm Hd.
    month_cases m.
Qed.

(** The year and the day of the year determine the day. *)
Lemma yearDay_inj d1 d2 : yearDay d1 = yearDay d2 -> d1 = d2.
Proof.
  unfold yearDay, daysPer400Years, daysPer100Years, daysPer4Years.
  rewrite !shiftr2. intros [= Hy Hd].
  Z.div_mod_to_equations; lia.
Qed.

(** Days of one year lie as far apart as their days of the year. *)
Lemma yearDay_same_year d1 d2 :
  (yearDay d1).1 = (yearDay d2).1 ->
  d1 - (yearDay d1).2 = d2 - (yearDay d2).2.
Proof.
  unfold yearDay, daysPer400Years, daysPer100Years, daysPer4Years.
  rewrite !shiftr2. cbn [fst snd]. intros Hy.
  Z.div_mod_to_equations; lia.
Qed.

(** The day of the year is recovered from the month and the day. *)
Lemma monthDay_inv y yd :
  0 <= yd <= 365 -> (yd = 365 -> isLeap y = true) ->
  yd = daysBefore ((monthDay y yd).1 - 1) + ((monthDay y yd).2 - 1)
       + (if isLeap y && (3 <=? (monthDay y yd).1) then 1 else 0).
Proof.
  intros Hyd Hl. unfold monthDay. change (31 + 29 - 1) with 59.
  destruct (isLeap y); cbn [andb].
  - destruct (Z.eqb_spec yd 59); [simpl; lia|].
    destruct (Z.ltb_spec 59 yd).
    + assert (Hm : 0 <= (yd - 1) / 31 <= 11) by (Z.div_mod_to_equations; lia).
      assert (Hd : 31 * ((yd - 1) / 31) <= yd - 1 < 31 * ((yd - 1) / 31) + 31)
        by (Z.div_mod_to_equations; lia).
      revert Hm Hd. generalize ((yd - 1) / 31). intros m Hm Hd.
      month_cases m.
    + assert (Hm : 0 <= yd / 31 <= 1) by (Z.div_mod_to_equations; lia).
      assert (Hd : 31 * (yd / 31) <= yd < 31 * (yd / 31) + 31)
        by (Z.div_mod_to_equations; lia).
      revert Hm Hd. generalize (yd / 31). intros m Hm Hd.
      month_cases m.
  - assert (yd <> 365) by (intros ->; by specialize (Hl eq_refl)).
    assert (Hm : 0 <= yd / 31 <= 11) by (Z.div_mod_to_equations; lia).
    assert (Hd : 31 * (yd / 31) <= yd < 31 * (yd / 31) + 31)
      by (Z.div_mod_to_equations; lia).
    revert Hm Hd. generalize (yd / 31). intros m Hm Hd.
    month_cases m.
Qed.

(** Timestamps with the same calendar date lie on the same day. *)
Lemma Date_inj t1 t2 : Date t1 = Date t2 -> absDays t1 = absDays t2.
Proof.
  unfold Date. intros He. apply yearDay_inj.
  pose proof (yearDay_yday (absDays t1)) as Hyd1.
  pose proof (yearDay_leap (absDays t1)) as Hl1.
  pose proof (yearDay_yday (absDays t2)) as Hyd2.
  pose proof (yearDay_leap (absDays t2)) as Hl2.
  destruct (yearDay (absDays t1)) as [y1 yd1].
  destruct (yearDay (absDays t2)) as [y2 yd2]. cbn [fst snd] in *.
  pose proof (monthDay_inv y1 yd1 Hyd1 Hl1) as Hi1.
  pose proof (monthDay_inv y2 yd2 Hyd2 Hl2) as Hi2.
  destruct (monthDay y1 yd1) as [m1 dd1].
  destruct (monthDay y2 yd2) as [m2 dd2]. cbn [fst snd] in *.
  simplify_eq. congruence.
Qed.

(** The Thursday [ISOWeek] looks at is the fourth day of the timestamp's
    week, weeks running from Monday to Sunday. *)
Lemma ISOWeek_thursday t :
  ISOWeek t = ((yearDay (7 * (absDays t / 7) + 3)).1,
               (yearDay (7 * (absDays t / 7) + 3)).2 / 7 + 1).
Proof.
  unfold ISOWeek, Weekday.
  assert (Hd : absDays t
               + (if 4 - (absDays t + 1) mod 7 =? 4 then -3
                  else 4 - (absDays t + 1) mod 7)
               = 7 * (absDays t / 7) + 3).
  { destruct (Z.eqb_spec (4 - (absDays t + 1) mod 7) 4);
      Z.div_mod_to_equations; lia. }
  rewrite Hd. by destruct (yearDay _).
Qed.

Lemma week_of_yday (k1 k2 y1 y2 : Z) :
  y1 / 7 + 1 = y2 / 7 + 1 -> 7 * k1 + 3 - y1 = 7 * k2 + 3 - y2 -> k1 = k2.
Proof. intros Hw Hs. Z.div_mod_to_equations. lia. Qed.

(** Timestamps with the same ISO year and week lie in the same
    Monday-to-Sunday week. *)
Lemma ISOWeek_inj t1 t2 :
  ISOWeek t1 = ISOWeek t2 -> absDays t1 / 7 = absDays t2 / 7.
Proof.
  rewrite !ISOWeek_thursday. intros [= Hy Hw].
  pose proof (yearDay_same_year _ _ Hy) as Hs.
  exact (week_of_yday _ _ _ _ Hw Hs).
Qed.

(** [Date] yields a month between 1 and 12 and a day between 1 and 31. *)
Lemma Date_bounds t : 1 <= Month t <= 12 /\ 1 <= Day t <= 31.
Proof.
  unfold Month, Day, Date.
  pose proof (yearDay_yday (absDays t)) as Hyd.
  pose proof (yearDay_leap (absDays t)) as Hl.
  destruct (yearDay (absDays t)) as [y yd]. cbn [fst snd] in *.
  pose proof (monthDay_bounds y yd Hyd Hl) as Hb.
  by destruct (monthDay y yd) as [m d].
Qed.

Lemma Hour_bounds t : 0 <= Hour t < 24.
Proof. unfold Hour, secondsPerDay. Z.div_mod_to_equations; lia. Qed.

(** ISO weeks are numbered from 1 to 53. *)
Lemma ISOWeek_bounds t : 1 <= (ISOWeek t).2 <= 53.
Proof.
  unfold ISOWeek.
  match goal with
  | |- context [yearDay ?d] =>
      pose proof (yearDay_yday d) as Hyd; destruct (yearDay d) as [y yd]
  end.
  cbn [fst snd] in *. Z.div_mod_to_equations; lia.
Qed.

End CalFacts.

(** ** The rotation policy *)

Module FilenameFacts.
Import Fmt FmtFacts CalFacts.

Lemma nexus_inj d1 d2 : nexus d1 = nexus d2 -> d1 = d2.
Proof.
  unfold nexus. intros H. apply (String.app_inj "nexus_") in H.
  by apply StrFacts.app_inj_len_r in H as [-> _].
Qed.

(** [cadence_of] names the branch [filename] takes. *)
Lemma cadence_of_Some p c :
  cadence_of p = Some c ->
  p = match c with
      | Hourly => LogPeriodHour
      | Daily => LogPeriodDay
      | Weekly => LogPeriodWeek
      | Monthly => LogPeriodMonth
      | Yearly => LogPeriodYear
      end.
Proof.
  unfold cadence_of.
  destruct (String.eqb_spec p LogPeriodHour) as [->|?]; [by intros [= <-]|].
  destruct (String.eqb_spec p LogPeriodDay) as [->|?]; [by intros [= <-]|].
  destruct (String.eqb_spec p LogPeriodWeek) as [->|?]; [by intros [= <-]|].
  destruct (String.eqb_spec p LogPeriodMonth) as [->|?]; [by intros [= <-]|].
  destruct (String.eqb_spec p LogPeriodYear) as [->|?]; [by intros [= <-]|].
  discriminate.
Qed.

Lemma filename_cadence cfg c t :
  cadence_of (Config.FilePeriod cfg) = Some c ->
  filename cfg t = nexus (datePart c t).
Proof.
  intros Hc. apply cadence_of_Some in Hc. unfold filename. rewrite Hc.
  destruct c; simpl; try done.
Qed.

Lemma filename_fallback cfg t :
  cadence_of (Config.FilePeriod cfg) = None ->
  filename cfg t = nexus (Format t layoutDay).
Proof.
  unfold cadence_of, filename.
  by repeat (destruct (_ =? _)%string; [discriminate|]).
Qed.

Ltac field_lengths :=
  cbn [Format formatChunk];
  rewrite ?StrFacts.length_app, ?length_appendInt_2, ?length_sprintf_02d;
  first [reflexivity | lia].

Lemma datePart_inj c t1 t2 :
  datePart c t1 = datePart c t2 -> bucket c t1 = bucket c t2.
Proof.
  pose proof (Date_bounds t1) as [Hm1 Hd1].
  pose proof (Date_bounds t2) as [Hm2 Hd2].
  pose proof (Hour_bounds t1) as Hh1. pose proof (Hour_bounds t2) as Hh2.
  pose proof (ISOWeek_bounds t1) as Hw1.
  pose proof (ISOWeek_bounds t2) as Hw2.
  destruct c; cbn [datePart bucket layoutHour layoutDay layoutMonth
                     layoutYear Format formatChunk]; intros H.
  - apply appendInt_app_inj in H as [-> H]; [|field_lengths].
    apply (String.app_inj "-") in H.
    apply appendInt_2_app_inj in H as [-> H]; [|lia..].
    apply (String.app_inj "-") in H.
    apply appendInt_2_app_inj in H as [-> H]; [|lia..].
    apply (String.app_inj "T") in H.
    apply appendInt_2_app_inj in H as [-> H]; [|lia..].
    done.
  - apply appendInt_app_inj in H as [-> H]; [|field_lengths].
    apply (String.app_inj "-") in H.
    apply appendInt_2_app_inj in H as [-> H]; [|lia..].
    apply (String.app_inj "-") in H.
    apply appendInt_2_app_inj in H as [-> H]; [|lia..].
    done.
  - apply sprintf_0d_app_inj in H as [-> H]; [|field_lengths].
    apply (String.app_inj "-") in H.
    apply sprintf_0d_inj in H as ->. done.
  - apply appendInt_app_inj in H as [-> H]; [|field_lengths].
    apply (String.app_inj "-") in H.
    apply appendInt_2_app_inj in H as [-> H]; [|lia..].
    done.
  - apply appendInt_app_inj in H as [-> H]; [|field_lengths]. done.
Qed.

Lemma datePart_bucket c t1 t2 :
  bucket c t1 = bucket c t2 -> datePart c t1 = datePart c t2.
Proof.
  destruct c; cbn [datePart bucket layoutHour layoutDay layoutMonth
                     layoutYear Format formatChunk]; intros H;
    simplify_eq; congruence.
Qed.

End FilenameFacts.

Lemma cons_eq {A} (x y : A) (l k : list A) :
  x :: l = y :: k -> x = y /\ l = k.
Proof. by intros [= -> ->]. Qed.

(** The hourly, daily and weekly buckets are stretches of wall-clock time:
    the hours and days since 0001-01-01 00:00 and the weeks from Monday to
    Sunday. *)
Lemma bucket_Hourly_iff t1 t2 :
  bucket Hourly t1 = bucket Hourly t2 <-> abs t1 / 3600 = abs t2 / 3600.
Proof.
  unfold bucket, Year, Month, Day. split.
  - intros H. apply cons_eq in H as [Hy H]. apply cons_eq in H as [Hm H].
    apply cons_eq in H as [Hd H]. apply cons_eq in H as [Hh _].
    assert (He : Date t1 = Date t2).
    { destruct (Date t1) as [[? ?] ?], (Date t2) as [[? ?] ?].
      cbn [fst snd] in *. congruence. }
    apply CalFacts.Date_inj in He. revert He Hh.
    unfold absDays, Hour, secondsPerDay. Z.div_mod_to_equations; lia.
  - intros He.
    assert (Hd : absDays t1 = absDays t2 /\ Hour t1 = Hour t2).
    { revert He. unfold absDays, Hour, secondsPerDay.
      Z.div_mod_to_equations; lia. }
    destruct Hd as [Hd Hh]. unfold Date. by rewrite Hd, Hh.
Qed.

Lemma bucket_Daily_iff t1 t2 :
  bucket Daily t1 = bucket Daily t2 <-> absDays t1 = absDays t2.
Proof.
  unfold bucket, Year, Month, Day. split.
  - intros H. apply cons_eq in H as [Hy H]. apply cons_eq in H as [Hm H].
    apply cons_eq in H as [Hd _]. apply CalFacts.Date_inj.
    destruct (Date t1) as [[? ?] ?], (Date t2) as [[? ?] ?].
    cbn [fst snd] in *. congruence.
  - intros He. unfold Date. by rewrite He.
Qed.

Lemma bucket_Weekly_iff t1 t2 :
  bucket Weekly t1 = bucket Weekly t2 <-> absDays t1 / 7 = absDays t2 / 7.
Proof.
  unfold bucket. split.
  - intros H. apply cons_eq in H as [Hy H]. apply cons_eq in H as [Hw _].
    apply CalFacts.ISOWeek_inj.
    rewrite (surjective_pairing (ISOWeek t1)), (surjective_pairing (ISOWeek t2)).
    by rewrite Hy, Hw.
  - intros He. by rewrite !CalFacts.ISOWeek_thursday, He.
Qed.

(** Claim C3.  For each of the five rotation periods, two timestamps in the
    same bucket (calendar hour, calendar day, ISO week, calendar month,
    calendar year) get the same filename, and two timestamps in different
    buckets get different filenames. *)
Theorem filename_separates_buckets (cfg : Config.t) (c : Cadence)
    (t1 t2 : Time) :
  cadence_of (Config.FilePeriod cfg) = Some c ->
  (bucket c t1 = bucket c t2 -> filename cfg t1 = filename cfg t2) /\
  (bucket c t1 <> bucket c t2 -> filename cfg t1 <> filename cfg t2).
Proof.
  intros Hc. rewrite !(FilenameFacts.filename_cadence _ _ _ Hc). split.
  - intros Hb. by rewrite (FilenameFacts.datePart_bucket _ _ _ Hb).
  - intros Hb He. apply Hb, FilenameFacts.datePart_inj.
    by apply FilenameFacts.nexus_inj.
Qed.

Lemma filename_separates_buckets_witness :
  cadence_of (Config.FilePeriod cfgWeek) = Some Weekly /\
  ((bucket Weekly (DateUTC 2024 12 31 10 0 0)
    = bucket Weekly (DateUTC 2025 1 1 9 30 0) ->
    filename cfgWeek (DateUTC 2024 12 31 10 0 0)
    = filename cfgWeek (DateUTC 2025 1 1 9 30 0)) /\
   (bucket Weekly (DateUTC 2024 12 31 10 0 0)
    <> bucket Weekly (DateUTC 2025 1 1 9 30 0) ->
    filename cfgWeek (DateUTC 2024 12 31 10 0 0)
    <> filename cfgWeek (DateUTC 2025 1 1 9 30 0))).
Proof.
  split; [reflexivity|].
  apply (filename_separates_buckets cfgWeek Weekly). reflexivity.
Defined.

(** The calendar and the formats on known dates. *)
Example Date_epoch :
  Date (mkTime 0 0 0) = (1970, 1, 1) /\ Weekday (mkTime 0 0 0) = 4 /\
  DateUTC 1970 1 1 0 0 0 = mkTime 0 0 0.
Proof. repeat split; reflexivity. Qed.

Example Date_leap_day :
  Date (DateUTC 2024 2 29 0 0 0) = (2024, 2, 29) /\
  Date (DateUTC 2024 3 1 0 0 0) = (2024, 3, 1) /\
  Date (DateUTC 2023 3 1 0 0 0) = (2023, 3, 1).
Proof. repeat split; reflexivity. Qed.

Example ISOWeek_2021_01_03 : ISOWeek (DateUTC 2021 1 3 10 0 0) = (2020, 53).
Proof. reflexivity. Qed.

Example filename_by_period :
  let t := DateUTC 2024 1 31 10 20 30 in
  filename cfgHour t = "nexus_2024-01-31T10.log" /\
  filename (Config.withFilePeriod LogPeriodDay cfgHour) t
  = "nexus_2024-01-31.log" /\
  filename cfgWeek t = "nexus_2024-05.log" /\
  filename cfgMonth t = "nexus_2024-01.log" /\
  filename (Config.withFilePeriod LogPeriodYear cfgHour) t = "nexus_2024.log".
Proof. repeat split; reflexivity. Qed.

(** Claim C5.  With the period Week the filename carries the ISO 8601
    week-numbering year and week, not the calendar year: timestamps of the
    same ISO week share their filename, and 2024-12-31 and 2025-01-01, which
    differ in calendar year, both go to ISO week 1 of 2025. *)
Theorem week_filename_uses_iso_week (cfg : Config.t) :
  Config.FilePeriod cfg = LogPeriodWeek ->
  (forall t, filename cfg t
             = "nexus_" +:+ Fmt.sprintf_0d 4 (ISOWeek t).1 +:+ "-"
               +:+ Fmt.sprintf_0d 2 (ISOWeek t).2 +:+ ".log") /\
  (forall t1 t2, ISOWeek t1 = ISOWeek t2 -> filename cfg t1 = filename cfg t2) /\
  (let t1 := DateUTC 2024 12 31 10 0 0 in
   let t2 := DateUTC 2025 1 1 10 0 0 in
   Year t1 = 2024 /\ Year t2 = 2025 /\
   ISOWeek t1 = (2025, 1) /\ ISOWeek t2 = (2025, 1) /\
   filename cfg t1 = "nexus_2025-01.log" /\
   filename cfg t2 = "nexus_2025-01.log").
Proof.
  intros Hp.
  assert (Hf : forall t, filename cfg t
             = "nexus_" +:+ Fmt.sprintf_0d 4 (ISOWeek t).1 +:+ "-"
               +:+ Fmt.sprintf_0d 2 (ISOWeek t).2 +:+ ".log").
  { intros t. unfold filename. rewrite Hp. simpl. destruct (ISOWeek t).
    unfold nexus. by rewrite !StrFacts.app_assoc. }
  split; [exact Hf|]. split.
  - intros t1 t2 He. by rewrite !Hf, He.
  - cbv zeta. rewrite !Hf. repeat split; reflexivity.
Qed.

Lemma week_filename_uses_iso_week_witness :
  filename cfgWeek (DateUTC 2024 12 31 10 0 0) = "nexus_2025-01.log".
Proof.
  destruct (week_filename_uses_iso_week cfgWeek) as (_ & _ & H);
    [reflexivity|].
  apply H.
Defined.

(** Claim C10.  The filename does not tell the period: under Week, a
    timestamp of ISO week 1 of 2024 goes to the file that, under Month, takes
    the timestamps of January 2024, although the two timestamps lie in
    different weeks. *)
Theorem week_and_month_filenames_collide :
  exists (cfgW cfgM : Config.t) (t1 t2 : Time),
    Config.FilePeriod cfgW = LogPeriodWeek /\
    Config.FilePeriod cfgM = LogPeriodMonth /\
    bucket Weekly t1 = [2024; 1] /\
    bucket Monthly t2 = [2024; 1] /\
    bucket Weekly t1 <> bucket Weekly t2 /\
    filename cfgW t1 = "nexus_2024-01.log" /\
    filename cfgM t2 = "nexus_2024-01.log" /\
    filename cfgW t1 = filename cfgM t2.
Proof.
  exists cfgWeek, cfgMonth, (DateUTC 2024 1 3 10 0 0),
    (DateUTC 2024 1 31 10 0 0).
  repeat split; try reflexivity. vm_compute. discriminate.
Qed.

(** ** The severity table *)

Lemma logLevels_lookup (name : string) (r : Z) :
  logLevels !! name = Some r <->
  (name = INFO /\ r = 1) \/ (name = DEBUG /\ r = 2) \/ (name = WARN /\ r = 3)
  \/ (name = ERROR /\ r = 4) \/ (name = FATAL /\ r = 5).
Proof.
  unfold logLevels. rewrite !lookup_insert_Some, lookup_empty.
  unfold INFO, DEBUG, WARN, ERROR, FATAL.
  split; intros H;
    repeat match goal with
           | H : _ \/ _ |- _ => destruct H
           | H : _ /\ _ |- _ => destruct H
           end; simplify_eq; auto 10;
    repeat first [left; split; reflexivity | right; split; [discriminate|]].
Qed.

(** The table has five entries and no two names share a rank. *)
Lemma logLevels_distinct (n1 n2 : string) (r : Z) :
  logLevels !! n1 = Some r -> logLevels !! n2 = Some r -> n1 = n2.
Proof.
  rewrite !logLevels_lookup. intros H1 H2.
  repeat match goal with
         | H : _ \/ _ |- _ => destruct H
         | H : _ /\ _ |- _ => destruct H
         end; simplify_eq; done.
Qed.

Lemma logLevels_size : size logLevels = 5%nat.
Proof.
  unfold logLevels. rewrite !map_size_insert, map_size_empty.
  by rewrite !lookup_insert_ne, !lookup_empty.
Qed.

(** Claim C1 (the code departs from it).  The table of levels.go ranks INFO
    lowest, below DEBUG: the order it yields is
    INFO < DEBUG < WARN < ERROR < FATAL, so the rank of DEBUG is not below
    the rank of INFO. *)
Theorem logLevels_ranks_INFO_below_DEBUG :
  rank INFO = 1 /\ rank DEBUG = 2 /\ rank WARN = 3 /\ rank ERROR = 4 /\
  rank FATAL = 5 /\ ~ rank DEBUG < rank INFO.
Proof.
  assert (H : forall n r, logLevels !! n = Some r -> rank n = r).
  { intros n r Hn. unfold rank. by rewrite Hn. }
  rewrite (H INFO 1), (H DEBUG 2), (H WARN 3), (H ERROR 4), (H FATAL 5)
    by (apply logLevels_lookup; auto 10).
  repeat split; lia.
Qed.

(** ** The dispatcher *)

Ltac cfg_simpl :=
  cbn [Config.AppName Config.Location Config.FilePeriod Config.Level
       Config.AutoStop Config.withLocation Config.withFilePeriod
       Config.withLevel].

Ltac world_simpl :=
  cbn [set_configs set_chans set_logger set_handler set_stdout set_stderr
       set_mkdirs set_goroutines set_files
       GOOS openFails writeFails configs chans logger handler handled stdout
       stderr mkdirs goroutines files world_of panicked] in *.

(** Case analysis on a world exposes its fields to the field updates. *)
Ltac open_world w :=
  destruct w as [? ? ? ? ? ? ? ? ? ? ? ? ?]; world_simpl.

Ltac run :=
  unfold mbind, M_bind, mret, M_ret, get, modify, panic, park in *;
  cbn beta iota.

Lemma addLog_below (l : Logging) (log : Log.t) (w : World) :
  rank (Log.Level log) < logLevel l -> addLog (Some l) log w = Returned tt w.
Proof.
  intros Hlt. unfold addLog. run.
  destruct (logger w); [|done].
  by destruct (Z.ltb_spec (rank (Log.Level log)) (logLevel l)); [|lia].
Qed.

Lemma addLog_above (l : Logging) (log : Log.t) (w : World) :
  logLevel l <= rank (Log.Level log) -> is_Some (logger w) ->
  addLog (Some l) log w
  = send (logChan l) log (set_stdout (stdout w ++ [consoleLine log]) w).
Proof.
  intros Hge [l' Hl']. unfold addLog, Printf. run. rewrite Hl'.
  by destruct (Z.ltb_spec (rank (Log.Level log)) (logLevel l)); [lia|].
Qed.

(** [send] touches nothing but the channel heap. *)
Lemma send_frame (c : nat) (log : Log.t) (w : World) :
  let w' := world_of (send c log w) in
  logger w' = logger w /\ handler w' = handler w /\ handled w' = handled w /\
  stdout w' = stdout w /\ files w' = files w /\ configs w' = configs w.
Proof.
  unfold send. run. open_world w.
  destruct (_ !! c) as [ch|]; [|done].
  destruct (closed ch); [done|]. by destruct (_ <? _).
Qed.

(** [addLog] never calls the external handler, whatever its receiver, the
    entry and the state. *)
Lemma addLog_handled (l : option Logging) (log : Log.t) (w : World) :
  handled (world_of (addLog l log w)) = handled w /\
  handler (world_of (addLog l log w)) = handler w.
Proof.
  unfold addLog, Printf. run.
  destruct (logger w); [|done]. destruct l as [l|]; [|done].
  destruct (_ <? _); [done|].
  pose proof (send_frame (logChan l) log
                (set_stdout (stdout w ++ [consoleLine log]) w)) as Hs.
  cbv zeta in Hs. destruct Hs as (_ & Hh & Hd & _).
  destruct (send _ _ _); world_simpl; rewrite Hh, Hd; by open_world w.
Qed.

(** [addLog] leaves the files, the configurations and the package-level
    logger alone: only a writer turn appends to a file. *)
Lemma addLog_frame (l : option Logging) (log : Log.t) (w : World) :
  let w' := world_of (addLog l log w) in
  files w' = files w /\ configs w' = configs w /\ logger w' = logger w.
Proof.
  unfold addLog, Printf. run.
  destruct (logger w) eqn:Hl; [|done]. destruct l as [l|]; [|done].
  destruct (_ <? _); [done|].
  pose proof (send_frame (logChan l) log
                (set_stdout (stdout w ++ [consoleLine log]) w)) as Hs.
  cbv zeta in *. destruct Hs as (Hlg & _ & _ & _ & Hf & Hc).
  destruct (send _ _ _); world_simpl; rewrite Hf, Hc, Hlg, <- Hl;
    by open_world w.
Qed.

(** A writer turn appends at most one line, and then for the entry at the
    head of its queue, to the file [filename] names for the entry's
    timestamp. *)
Lemma start_step_files (l : Logging) (w : World) :
  let w' := world_of (start_step l w) in
  files w' = files w \/
  exists ch log rest c,
    chans w !! logChan l = Some ch /\ buf ch = log :: rest /\
    configs w !! config l = Some c /\
    files w'
    = files w
      ++ [(Join (path l) (filename c (Log.TimeStamp log)),
           Format (Log.TimeStamp log) layoutClock +:+ Str.TAB
           +:+ Log.Level log +:+ Str.TAB +:+ Log.Message log +:+ Str.LF)].
Proof.
  unfold start_step, load, Fprintf_stderr. run.
  destruct (chans w !! logChan l) as [ch|] eqn:Hch; [|by left].
  destruct (buf ch) as [|log rest] eqn:Hb; [left; by destruct (closed ch)|].
  destruct (configs w !! config l) as [c|] eqn:Hc.
  - assert (Hc' : configs (set_chans
                    (<[logChan l := mkChan rest (capacity ch) (closed ch)]>
                       (chans w)) w) !! config l = Some c)
      by (by open_world w).
    rewrite Hc'. destruct (bool_decide _); [left; by open_world w|].
    destruct (bool_decide _); [left; by open_world w|].
    right. exists ch, log, rest, c. repeat split; try done. by open_world w.
  - assert (Hc' : configs (set_chans
                    (<[logChan l := mkChan rest (capacity ch) (closed ch)]>
                       (chans w)) w) !! config l = None)
      by (by open_world w).
    rewrite Hc'. left. by open_world w.
Qed.

(** Claim C4.  An entry ranked below the threshold leaves the process as it
    was: nothing is printed, no handler runs, nothing is enqueued.  An entry
    ranked at or above the threshold of the running logger is printed on the
    console and, the queue having room, appended to the queue; on a full
    queue the line is printed and the call parks until there is room. *)
Theorem addLog_threshold (l : Logging) (log : Log.t) (w : World) :
  (rank (Log.Level log) < logLevel l ->
   addLog (Some l) log w = Returned tt w) /\
  (logLevel l <= rank (Log.Level log) -> is_Some (logger w) ->
   forall ch, chans w !! logChan l = Some ch -> closed ch = false ->
   (Z.of_nat (length (buf ch)) < capacity ch ->
    exists w', addLog (Some l) log w = Returned tt w' /\
      stdout w' = stdout w ++ [consoleLine log] /\
      chans w' = <[logChan l := mkChan (buf ch ++ [log]) (capacity ch) false]>
                   (chans w)) /\
   (capacity ch <= Z.of_nat (length (buf ch)) ->
    exists w', addLog (Some l) log w = Blocked w' /\
      stdout w' = stdout w ++ [consoleLine log] /\ chans w' = chans w)).
Proof.
  split; [apply addLog_below|].
  intros Hge Hrun ch Hch Hopen. rewrite (addLog_above _ _ _ Hge Hrun).
  unfold send. run. open_world w. rewrite Hch, Hopen.
  split; intros Hroom.
  - destruct (Z.ltb_spec (Z.of_nat (length (buf ch))) (capacity ch)); [|lia].
    eexists. split; [reflexivity|]. done.
  - destruct (Z.ltb_spec (Z.of_nat (length (buf ch))) (capacity ch)); [lia|].
    eexists. split; [reflexivity|]. done.
Qed.

Lemma addLog_threshold_witness :
  exists w',
    addLog (Some runningLogger)
      (Log.mk (DateUTC 2025 10 31 12 0 0) "ERROR" "disk full") running
    = Returned tt w' /\
    stdout w'
    = stdout running
      ++ [consoleLine (Log.mk (DateUTC 2025 10 31 12 0 0) "ERROR" "disk full")]
    /\
    chans w'
    = <[logChan runningLogger :=
          mkChan ([] ++ [Log.mk (DateUTC 2025 10 31 12 0 0) "ERROR" "disk full"])
            10000 false]> (chans running).
Proof.
  destruct (addLog_threshold runningLogger
              (Log.mk (DateUTC 2025 10 31 12 0 0) "ERROR" "disk full")
              running) as [_ H].
  destruct (H ltac:(by vm_compute) ltac:(by eexists)
              (mkChan [] 10000 false) eq_refl eq_refl) as [H1 _].
  apply H1. by vm_compute.
Defined.

(** Claim C2 (the code departs from it).  With an external handler
    registered and the threshold at INFO, submitting an INFO entry prints the
    console line and enqueues the entry, and the handler is not invoked:
    [addLog] has no call to it. *)
Theorem addLog_skips_registered_handler :
  let now := DateUTC 2025 10 31 12 0 0 in
  let entry := Log.mk now "INFO" "external handler message" in
  handler withHandler = Some 7%nat /\
  (exists l, logger withHandler = Some l /\ logLevel l <= rank "INFO") /\
  exists w', Info now "external handler message" withHandler = Returned tt w' /\
    stdout w' = [consoleLine entry] /\
    (buf <$> chans w') = [[entry]] /\
    handled w' = [].
Proof.
  cbv zeta. split; [reflexivity|]. split.
  - eexists. split; [reflexivity|]. by vm_compute.
  - eexists. split; [by vm_compute|]. by repeat split.
Qed.

(** ** The lifecycle *)

Lemma addLog_without_logger (l : option Logging) (log : Log.t) (w : World) :
  logger w = None -> addLog l log w = Returned tt w.
Proof. intros Hn. unfold addLog. run. by rewrite Hn. Qed.

Lemma Stop_without_logger (w : World) :
  logger w = None -> Stop w = Returned tt w.
Proof. intros Hn. unfold Stop. run. by rewrite Hn. Qed.

(** [Stop] on a logger whose channel is open closes the channel and clears
    the package-level logger. *)
Lemma Stop_running (w : World) (l : Logging) (ch : Chan) :
  logger w = Some l -> chans w !! logChan l = Some ch -> closed ch = false ->
  Stop w = Returned tt
             (set_logger None
                (set_chans (<[logChan l := mkChan (buf ch) (capacity ch) true]>
                              (chans w)) w)).
Proof.
  intros Hl Hch Hopen. unfold Stop, close. run. rewrite Hl. run.
  by rewrite Hch, Hopen.
Qed.

Lemma Stop_clears_logger (w w' : World) :
  Stop w = Returned tt w' -> logger w' = None.
Proof.
  unfold Stop, close. run. destruct (logger w) as [l|] eqn:Hl.
  - run. destruct (chans w !! logChan l) as [ch|]; [|done].
    destruct (closed ch); [done|]. intros [= <-]. by open_world w.
  - by intros [= <-].
Qed.

(** Claim C7.  With no logger running, that is before [Init] and after
    [Stop], each level helper returns at once and leaves the process
    untouched: nothing is printed or enqueued and nothing panics, although
    the helper calls [addLog] on the nil logger. *)
Theorem helpers_without_logger (w : World) (now : Time) (msg : string) :
  (logger w = None \/ exists w0, Stop w0 = Returned tt w) ->
  logger w = None /\
  Error now msg w = Returned tt w /\
  Info now msg w = Returned tt w /\
  Debug now msg w = Returned tt w /\
  Warn now msg w = Returned tt w /\
  Fatal now msg w = Returned tt w.
Proof.
  intros H.
  assert (Hn : logger w = None).
  { destruct H as [H|[w0 H]]; [done|]. by eapply Stop_clears_logger. }
  split; [done|].
  unfold Error, Info, Debug, Warn, Fatal. run.
  by rewrite !addLog_without_logger.
Qed.

Lemma helpers_without_logger_witness :
  Error (DateUTC 2025 10 31 12 0 0) "before Init" (initial "linux" [] [])
  = Returned tt (initial "linux" [] []).
Proof.
  apply (helpers_without_logger (initial "linux" [] [])).
  left. reflexivity.
Defined.

(** *** What every run preserves *)

Lemma logger_ok_insert (c : nat) (ch ch' : Chan) (w w' : World) :
  logger w' = logger w ->
  chans w' = <[c := ch']> (chans w) ->
  chans w !! c = Some ch -> (closed ch = false -> closed ch' = false) ->
  logger_ok w -> logger_ok w'.
Proof.
  unfold logger_ok. intros -> -> Hch Hcl.
  destruct (logger w) as [l|]; [|done].
  intros (ch0 & Hlk & Hopen).
  destruct (decide (logChan l = c)) as [<-|Hne].
  - exists ch'. split; [|apply Hcl; congruence].
    apply list_lookup_insert_eq. by eapply lookup_lt_Some.
  - exists ch0. by rewrite list_lookup_insert_ne.
Qed.

Lemma logger_ok_same (w w' : World) :
  logger_ok w -> logger w' = logger w -> chans w' = chans w -> logger_ok w'.
Proof. unfold logger_ok. by intros Hok -> ->. Qed.

Lemma send_ok (c : nat) (log : Log.t) (w : World) :
  logger_ok w -> logger_ok (world_of (send c log w)).
Proof.
  intros Hok. unfold send. run.
  destruct (chans w !! c) as [ch|] eqn:Hch; [|done].
  destruct (closed ch); [done|]. destruct (_ <? _); [|done].
  eapply (logger_ok_insert c ch _ w); [| |done| |done].
  - by open_world w.
  - by open_world w.
  - done.
Qed.

Lemma addLog_ok (l : option Logging) (log : Log.t) (w : World) :
  logger_ok w -> logger_ok (world_of (addLog l log w)).
Proof.
  intros Hok. unfold addLog, Printf. run.
  destruct (logger w) eqn:Hl; [|done]. destruct l as [l|]; [|done].
  destruct (_ <? _); [done|].
  pose proof (send_ok (logChan l) log
                (set_stdout (stdout w ++ [consoleLine log]) w)) as Hs.
  destruct (send _ _ _); apply Hs; eapply logger_ok_same; try done;
    by open_world w.
Qed.

(** *** Initialization *)

(** What [Init] does on a valid configuration pointer. *)
Lemma Init_Some (p : nat) (c : Config.t) (w : World) :
  configs w !! p = Some c ->
  Init (Some p) w
  = if (Config.AppName c =? "")%string
    then Returned (Some "AppName is required") w
    else
      let c' := defaulted (GOOS w) c in
      let w1 := set_configs (<[p := c']> (configs w)) w in
      match logLevels !! Config.Level c' with
      | None => Returned (Some ("invalid log level: " +:+ Config.Level c')) w1
      | Some lvl =>
          let l := mkLogging p (Config.Location c') (length (chans w)) lvl in
          Returned None
            (set_goroutines
               (goroutines w ++ Writer l
                  :: (if Config.AutoStop c' then [SignalStopper] else []))
               (set_mkdirs
                  (mkdirs w ++ [Config.Location c'; Config.Location c'])
                  (set_logger (Some l)
                     (set_chans (chans w ++ [mkChan [] 10000 false]) w1))))
      end.
Proof.
  intros Hc. unfold Init, load, store, defaulted. run. rewrite Hc.
  cbv zeta. destruct c as [app loc per lev auto]. cfg_simpl.
  destruct (app =? "")%string; [done|].
  destruct w as [g o wf cs chs lg h hd so se md gr fs]; world_simpl.
  destruct (loc =? "")%string; [destruct (g =? "windows")%string|];
    cfg_simpl.
  all: destruct (per =? "")%string; cfg_simpl.
  all: destruct (lev =? "")%string; cfg_simpl.
  all: match goal with
       | |- context [logLevels !! ?x] => destruct (logLevels !! x) as [lvl|]
       end; [|done].
  all: unfold newLogging, load, Mkdir, make_chan, go; run; world_simpl.
  all: rewrite list_lookup_insert_eq by (by eapply lookup_lt_Some).
  all: cfg_simpl; world_simpl.
  all: destruct auto; world_simpl; rewrite <- ?(assoc_L (++)); reflexivity.
Qed.

Lemma Init_nil (w : World) :
  Init None w
  = Returned (Some "AppName is required")
      (set_configs (configs w ++ [Config.zero]) w).
Proof.
  unfold Init, new_config, load. run. open_world w.
  rewrite lookup_app_r, Nat.sub_diag by done. reflexivity.
Qed.

Lemma Init_dangling (p : nat) (w : World) :
  configs w !! p = None ->
  Init (Some p) w
  = Panicked "invalid memory address or nil pointer dereference" w.
Proof. intros Hp. unfold Init, load. run. by rewrite Hp. Qed.

Lemma Init_ok (cfg : option nat) (w : World) :
  logger_ok w -> logger_ok (world_of (Init cfg w)).
Proof.
  intros Hok. destruct cfg as [p|].
  - destruct (configs w !! p) as [c|] eqn:Hc; [|by rewrite Init_dangling].
    rewrite (Init_Some _ _ _ Hc).
    destruct (_ =? _)%string; [done|]. cbv zeta.
    destruct (logLevels !! _) as [lvl|].
    + unfold logger_ok. open_world w. cbn [logChan].
      exists (mkChan [] 10000 false). split; [|reflexivity].
      rewrite lookup_app_r, Nat.sub_diag by done. reflexivity.
    + eapply logger_ok_same; [done|by open_world w..].
  - rewrite Init_nil. eapply logger_ok_same; [done|by open_world w..].
Qed.

Lemma Stop_ok (w : World) :
  panicked (Stop w) = false -> logger_ok (world_of (Stop w)).
Proof.
  unfold Stop, close. run. destruct (logger w) as [l|] eqn:Hl.
  - run. destruct (chans w !! logChan l) as [ch|]; [|done].
    destruct (closed ch); [done|]. intros _. unfold logger_ok.
    by open_world w.
  - intros _. unfold logger_ok. world_simpl. by rewrite Hl.
Qed.

Lemma start_step_ok (l : Logging) (w : World) :
  logger_ok w -> logger_ok (world_of (start_step l w)).
Proof.
  intros Hok. unfold start_step, load, Fprintf_stderr. run.
  destruct (chans w !! logChan l) as [ch|] eqn:Hch; [|done].
  destruct (buf ch) as [|log rest]; [by destruct (closed ch)|].
  assert (Hok' : logger_ok
            (set_chans (<[logChan l := mkChan rest (capacity ch) (closed ch)]>
                          (chans w)) w)).
  { eapply (logger_ok_insert (logChan l) ch _ w); [| |done| |done].
    - by open_world w.
    - by open_world w.
    - done. }
  destruct (configs _ !! config l) as [c|]; [|done].
  destruct (bool_decide _).
  - eapply logger_ok_same; [exact Hok'|by open_world w..].
  - destruct (bool_decide _);
      (eapply logger_ok_same; [exact Hok'|by open_world w..]).
Qed.

(** No call and no writer turn breaks [logger_ok], unless it panics. *)
Lemma exec_ok (c : Call) (w : World) :
  logger_ok w -> panicked (exec c w) = false -> logger_ok (world_of (exec c w)).
Proof.
  intros Hok Hp. destruct c; cbn [exec] in *.
  - eapply logger_ok_same; [done|by open_world w..].
  - eapply logger_ok_same; [done|by open_world w..].
  - pose proof (Init_ok cfg w Hok) as Hi. revert Hi. run.
    by destruct (Init cfg w).
  - by apply Stop_ok.
  - eapply logger_ok_same; [done|by open_world w..].
  - unfold Error. run. by apply addLog_ok.
  - unfold Info. run. by apply addLog_ok.
  - unfold Debug. run. by apply addLog_ok.
  - unfold Warn. run. by apply addLog_ok.
  - unfold Fatal. run. by apply addLog_ok.
  - pose proof (start_step_ok l w Hok) as Hs. revert Hs. run.
    by destruct (start_step l w).
  - by apply send_ok.
Qed.

Lemma reachable_ok (w : World) : reachable w -> logger_ok w.
Proof.
  induction 1 as [goos o wr|w c Hr IH Hp]; [done|]. by apply exec_ok.
Qed.

(** Claim C8.  [Stop] is idempotent: in any state a program can reach it
    returns, without panic, and leaves the package-level logger cleared; on
    a stopped or never initialized logger it changes nothing, so a second
    [Stop] right after the first is a no-op. *)
Theorem Stop_idempotent (w : World) :
  reachable w ->
  (logger w = None -> Stop w = Returned tt w) /\
  exists w', Stop w = Returned tt w' /\ logger w' = None /\
             Stop w' = Returned tt w' /\ reachable w'.
Proof.
  intros Hr. split; [apply Stop_without_logger|].
  assert (Hs : exists w', Stop w = Returned tt w').
  { pose proof (reachable_ok w Hr) as Hok. unfold logger_ok in Hok.
    destruct (logger w) as [l|] eqn:Hl.
    - destruct Hok as (ch & Hch & Hopen). eexists. by eapply Stop_running.
    - eexists. by apply Stop_without_logger. }
  destruct Hs as [w' Hs]. exists w'.
  pose proof (Stop_clears_logger _ _ Hs) as Hn.
  repeat split; [done..|by apply Stop_without_logger|].
  change w' with (world_of (Returned tt w')). rewrite <- Hs.
  apply (reach_step w CallStop Hr). cbn [exec]. by rewrite Hs.
Qed.

Lemma Stop_idempotent_witness :
  exists w', Stop (world_of (exec (CallInit (Some 0%nat)) (host cfgHour)))
             = Returned tt w' /\ logger w' = None /\
             Stop w' = Returned tt w' /\ reachable w'.
Proof.
  apply (Stop_idempotent (world_of (exec (CallInit (Some 0%nat))
                                      (host cfgHour)))).
  apply reach_step; [|by vm_compute].
  apply (reach_step _ (CallNewConfig cfgHour)); [|by vm_compute].
  apply reach_initial.
Defined.

Lemma defaulted_Level (goos : string) (c : Config.t) :
  Config.Level (defaulted goos c)
  = if (Config.Level c =? "")%string then INFO else Config.Level c.
Proof.
  unfold defaulted. destruct c as [app loc per lev auto]. cfg_simpl.
  destruct (loc =? "")%string; [destruct (goos =? "windows")%string|];
    cfg_simpl; destruct (per =? "")%string; cfg_simpl;
    by destruct (lev =? "")%string.
Qed.

Lemma defaulted_FilePeriod (goos : string) (c : Config.t) :
  Config.FilePeriod (defaulted goos c)
  = if (Config.FilePeriod c =? "")%string then LogPeriodHour
    else Config.FilePeriod c.
Proof.
  unfold defaulted. destruct c as [app loc per lev auto]. cfg_simpl.
  destruct (loc =? "")%string; [destruct (goos =? "windows")%string|];
    cfg_simpl; destruct (per =? "")%string; cfg_simpl;
    by destruct (lev =? "")%string.
Qed.

(** Claim C6.  When the configured level is a non-empty name that the
    severity table does not have, [Init] returns an error and neither
    replaces the package-level logger, nor creates a queue, nor starts a
    goroutine, nor touches the file system. *)
Theorem Init_rejects_unknown_level (p : nat) (c : Config.t) (w : World) :
  configs w !! p = Some c ->
  Config.Level c <> "" ->
  logLevels !! Config.Level c = None ->
  exists e w', Init (Some p) w = Returned (Some e) w' /\
    logger w' = logger w /\ chans w' = chans w /\
    goroutines w' = goroutines w /\ mkdirs w' = mkdirs w /\
    files w' = files w /\ stdout w' = stdout w.
Proof.
  intros Hc Hne Hnone. rewrite (Init_Some _ _ _ Hc).
  destruct (_ =? _)%string; [by eexists _, _|]. cbv zeta.
  rewrite defaulted_Level.
  destruct (String.eqb_spec (Config.Level c) ""); [done|].
  rewrite Hnone. eexists _, _. split; [reflexivity|]. by open_world w.
Qed.

Lemma Init_rejects_unknown_level_witness :
  exists e w',
    Init (Some 0%nat) (host (Config.withLevel "VERBOSE" cfgHour))
    = Returned (Some e) w' /\
    logger w' = logger (host (Config.withLevel "VERBOSE" cfgHour)) /\
    chans w' = chans (host (Config.withLevel "VERBOSE" cfgHour)) /\
    goroutines w' = goroutines (host (Config.withLevel "VERBOSE" cfgHour)) /\
    mkdirs w' = mkdirs (host (Config.withLevel "VERBOSE" cfgHour)) /\
    files w' = files (host (Config.withLevel "VERBOSE" cfgHour)) /\
    stdout w' = stdout (host (Config.withLevel "VERBOSE" cfgHour)).
Proof.
  apply (Init_rejects_unknown_level 0 (Config.withLevel "VERBOSE" cfgHour)).
  - reflexivity.
  - discriminate.
  - by vm_compute.
Defined.

(** * Further properties *)

(** ** Single steps *)

Lemma send_room (c : nat) (x : Log.t) (w : World) (ch : Chan) :
  chans w !! c = Some ch -> closed ch = false ->
  Z.of_nat (length (buf ch)) < capacity ch ->
  send c x w
  = Returned tt
      (set_chans (<[c := mkChan (buf ch ++ [x]) (capacity ch) false]>
                    (chans w)) w).
Proof.
  intros Hch Hopen Hroom. unfold send. run. rewrite Hch, Hopen.
  by destruct (Z.ltb_spec (Z.of_nat (length (buf ch))) (capacity ch)); [|lia].
Qed.

Lemma send_full (c : nat) (x : Log.t) (w : World) (ch : Chan) :
  chans w !! c = Some ch -> closed ch = false ->
  capacity ch <= Z.of_nat (length (buf ch)) ->
  send c x w = Blocked w.
Proof.
  intros Hch Hopen Hroom. unfold send. run. rewrite Hch, Hopen.
  by destruct (Z.ltb_spec (Z.of_nat (length (buf ch))) (capacity ch)); [lia|].
Qed.


(** A writer turn on a queue with a head entry. *)
Lemma start_step_entry (l : Logging) (w : World) (ch : Chan) (log : Log.t)
    (rest : list Log.t) (c : Config.t) :
  chans w !! logChan l = Some ch -> buf ch = log :: rest ->
  configs w !! config l = Some c ->
  start_step l w
  = Returned true
      (set_files (files w ++ entry_files (openFails w) (writeFails w) l c log)
         (set_stderr
            (stderr w ++ entry_stderr (openFails w) (writeFails w) l c log)
            (set_chans
               (<[logChan l := mkChan rest (capacity ch) (closed ch)]>
                  (chans w)) w))).
Proof.
  intros Hch Hb Hc. unfold start_step, load, Fprintf_stderr. run.
  rewrite Hch, Hb.
  assert (Hc' : configs (set_chans
                    (<[logChan l := mkChan rest (capacity ch) (closed ch)]>
                       (chans w)) w) !! config l = Some c)
    by (by open_world w).
  rewrite Hc'. unfold entry_files, entry_stderr, fullpath, output.
  destruct (bool_decide _); [open_world w; by rewrite !app_nil_r|].
  destruct (bool_decide _); open_world w; by rewrite ?app_nil_r.
Qed.

Lemma start_step_drained (l : Logging) (w : World) (ch : Chan) :
  chans w !! logChan l = Some ch -> buf ch = [] ->
  start_step l w = if closed ch then Returned false w else Blocked w.
Proof.
  intros Hch Hb. unfold start_step. run. rewrite Hch, Hb.
  by destruct (closed ch).
Qed.

(** ** The writer loop *)

Lemma start_S (n : nat) (l : Logging) (w : World) :
  start (S n) l w
  = match start_step l w with
    | Returned more w' => (if more then start n l else mret false) w'
    | Blocked w' => Blocked w'
    | Panicked r w' => Panicked r w'
    end.
Proof. reflexivity. Qed.

(** What a turn on a head entry leaves behind, field by field. *)
Lemma start_step_entry_fields (l : Logging) (w : World) (ch : Chan)
    (log : Log.t) (rest : list Log.t) (c : Config.t) :
  chans w !! logChan l = Some ch -> buf ch = log :: rest ->
  configs w !! config l = Some c ->
  exists w1, start_step l w = Returned true w1 /\
    chans w1 = <[logChan l := mkChan rest (capacity ch) (closed ch)]> (chans w)
    /\ files w1
       = files w ++ entry_files (openFails w) (writeFails w) l c log /\
    stderr w1
    = stderr w ++ entry_stderr (openFails w) (writeFails w) l c log /\
    configs w1 = configs w /\ openFails w1 = openFails w /\
    writeFails w1 = writeFails w /\ logger w1 = logger w /\
    stdout w1 = stdout w /\ goroutines w1 = goroutines w.
Proof.
  intros Hch Hb Hc. eexists. split; [by eapply start_step_entry|].
  by open_world w.
Qed.

(** A writer that finds [buf ch] queued takes one turn per entry and one
    more: it persists the entries in queue order, reports on stderr those
    whose file cannot be opened or written, and then leaves the loop if the
    queue is closed and waits if it is open. *)
Lemma start_run (l : Logging) (w : World) (ch : Chan) (c : Config.t) :
  chans w !! logChan l = Some ch -> configs w !! config l = Some c ->
  exists w',
    start (S (length (buf ch))) l w
    = (if closed ch then Returned false w' else Blocked w') /\
    chans w' = <[logChan l := mkChan [] (capacity ch) (closed ch)]> (chans w)
    /\ files w'
       = files w
         ++ flat_map (entry_files (openFails w) (writeFails w) l c) (buf ch)
    /\ stderr w'
       = stderr w
         ++ flat_map (entry_stderr (openFails w) (writeFails w) l c) (buf ch)
    /\ logger w' = logger w /\ stdout w' = stdout w.
Proof.
  remember (buf ch) as logs eqn:Hb. symmetry in Hb.
  revert w ch Hb. induction logs as [|log rest IH]; intros w ch Hb Hch Hc.
  - exists w. rewrite start_S, (start_step_drained _ _ _ Hch Hb).
    cbn [flat_map]. rewrite !app_nil_r.
    split; [by destruct (closed ch)|]. repeat split; try done.
    symmetry. apply list_insert_id. rewrite Hch. f_equal.
    destruct ch as [b cp cl]. cbn in *. by subst.
  - destruct (start_step_entry_fields _ _ _ _ _ _ Hch Hb Hc)
      as (w1 & Hs & Hch1 & Hf1 & He1 & Hc1 & Ho1 & Hw1 & Hl1 & Hso1 & _).
    cbn [length]. rewrite start_S, Hs. cbn iota.
    destruct (IH w1 (mkChan rest (capacity ch) (closed ch)))
      as (w' & Hs' & Hch' & Hf' & He' & Hl' & Hso'); [done| | |].
    + rewrite Hch1. apply list_lookup_insert_eq. by eapply lookup_lt_Some.
    + by rewrite Hc1.
    + exists w'. split; [exact Hs'|]. cbn [capacity closed] in Hch'.
      rewrite Hch', Hf', He', Hl', Hso', Hch1, Hf1, He1, Ho1, Hw1, Hl1, Hso1.
      cbn [flat_map]. rewrite list_insert_insert_eq, <- !(assoc_L (++)).
      done.
Qed.

(** Once the queue is closed the writer persists every entry still queued, in
    queue order, skips those whose file cannot be opened or written while
    reporting them on stderr, and leaves the loop with the queue empty. *)
Theorem start_drains_closed_queue (l : Logging) (w : World) (ch : Chan)
    (c : Config.t) :
  chans w !! logChan l = Some ch -> closed ch = true ->
  configs w !! config l = Some c ->
  exists w', start (S (length (buf ch))) l w = Returned false w' /\
    chans w' = <[logChan l := mkChan [] (capacity ch) true]> (chans w) /\
    files w'
    = files w
      ++ flat_map (entry_files (openFails w) (writeFails w) l c) (buf ch) /\
    stderr w'
    = stderr w
      ++ flat_map (entry_stderr (openFails w) (writeFails w) l c) (buf ch) /\
    logger w' = logger w /\ stdout w' = stdout w.
Proof.
  intros Hch Hcl Hc.
  destruct (start_run l w ch c Hch Hc) as (w' & Hs & Hrest).
  rewrite Hcl in Hs, Hrest. by exists w'.
Qed.

Lemma start_drains_closed_queue_witness :
  exists w',
    start 3 runningLogger
      (world_of ((Error (DateUTC 2025 10 31 12 0 0) "disk full";;
                  Warn (DateUTC 2025 10 31 12 0 1) "retrying";;
                  Stop) running))
    = Returned false w' /\
    files w'
    = [("/tmp/nexus_2025-10-31T12.log",
        output (Log.mk (DateUTC 2025 10 31 12 0 0) "ERROR" "disk full"));
       ("/tmp/nexus_2025-10-31T12.log",
        output (Log.mk (DateUTC 2025 10 31 12 0 1) "WARN" "retrying"))].
Proof.
  destruct (start_drains_closed_queue runningLogger
              (world_of ((Error (DateUTC 2025 10 31 12 0 0) "disk full";;
                          Warn (DateUTC 2025 10 31 12 0 1) "retrying";;
                          Stop) running))
              (mkChan [Log.mk (DateUTC 2025 10 31 12 0 0) "ERROR" "disk full";
                       Log.mk (DateUTC 2025 10 31 12 0 1) "WARN" "retrying"]
                 10000 true)
              cfgHour)
    as (w' & Hs & _ & Hf & _); [by vm_compute..|].
  exists w'. split; [exact Hs|]. rewrite Hf. by vm_compute.
Defined.

(** While the queue is open the writer never leaves its loop: after any
    number of turns it is still looping, parked on the empty queue, or has
    panicked on a dangling configuration. *)
Theorem start_loops_while_open (l : Logging) (w : World) (ch : Chan) :
  chans w !! logChan l = Some ch -> closed ch = false ->
  forall n w', start n l w <> Returned false w'.
Proof.
  intros Hch Hopen n. revert w ch Hch Hopen.
  induction n as [|n IH]; intros w ch Hch Hopen w'; [done|].
  rewrite start_S. destruct (buf ch) as [|log rest] eqn:Hb.
  - by rewrite (start_step_drained _ _ _ Hch Hb), Hopen.
  - destruct (configs w !! config l) as [c|] eqn:Hc.
    + destruct (start_step_entry_fields _ _ _ _ _ _ Hch Hb Hc)
        as (w1 & -> & Hch1 & _). cbn iota.
      apply (IH w1 (mkChan rest (capacity ch) (closed ch))); [|done].
      rewrite Hch1. apply list_lookup_insert_eq. by eapply lookup_lt_Some.
    + unfold start_step, load. run. rewrite Hch, Hb.
      assert (Hc' : configs (set_chans
                        (<[logChan l := mkChan rest (capacity ch) (closed ch)]>
                           (chans w)) w) !! config l = None)
        by (by open_world w).
      by rewrite Hc'.
Qed.

Lemma start_loops_while_open_witness :
  chans running !! logChan runningLogger = Some (mkChan [] 10000 false) /\
  forall n w', start n runningLogger running <> Returned false w'.
Proof.
  split; [reflexivity|].
  apply (start_loops_while_open runningLogger running
           (mkChan [] 10000 false)); reflexivity.
Defined.

(** ** Shutdown *)

Lemma entry_files_written (l : Logging) (c : Config.t) (o wf : list string)
    (logs : list Log.t) :
  (forall log, log ∈ logs ->
     (fullpath l c log ∉ o) /\ (fullpath l c log ∉ wf)) ->
  flat_map (entry_files o wf l c) logs
  = (fun log => (fullpath l c log, output log)) <$> logs.
Proof.
  induction logs as [|log logs IH]; intros Hok; [done|].
  cbn [flat_map]. rewrite fmap_cons, IH.
  - destruct (Hok log) as [Ho Hwf]; [by left|]. unfold entry_files.
    by rewrite !bool_decide_eq_false_2.
  - intros log' Hin. apply Hok. by right.
Qed.

(** [Stop] returns at once, keeps the queued entries and writes no file
    itself; the writer then takes every queued entry, in queue order, before
    it ends: it appends the entry's line to the entry's file, or reports on
    stderr that the file cannot be opened or written.  When none of the
    files fails, every entry accepted before [Stop] gets its line: none is
    lost. *)
Theorem Stop_then_writer_persists_queue (l : Logging) (w : World) (ch : Chan)
    (c : Config.t) :
  logger w = Some l -> chans w !! logChan l = Some ch -> closed ch = false ->
  configs w !! config l = Some c ->
  exists w1 w2,
    Stop w = Returned tt w1 /\ logger w1 = None /\ files w1 = files w /\
    chans w1 !! logChan l = Some (mkChan (buf ch) (capacity ch) true) /\
    start (S (length (buf ch))) l w1 = Returned false w2 /\
    chans w2 !! logChan l = Some (mkChan [] (capacity ch) true) /\
    files w2
    = files w
      ++ flat_map (entry_files (openFails w) (writeFails w) l c) (buf ch) /\
    stderr w2
    = stderr w
      ++ flat_map (entry_stderr (openFails w) (writeFails w) l c) (buf ch) /\
    ((forall log, log ∈ buf ch ->
        (fullpath l c log ∉ openFails w) /\
        (fullpath l c log ∉ writeFails w)) ->
     files w2
     = files w ++ ((fun log => (fullpath l c log, output log)) <$> buf ch)).
Proof.
  intros Hl Hch Hopen Hc.
  pose proof (Stop_running _ _ _ Hl Hch Hopen) as Hs.
  set (w1 := set_logger None
               (set_chans
                  (<[logChan l := mkChan (buf ch) (capacity ch) true]>
                     (chans w)) w)) in *.
  assert (Hch1 : chans w1 !! logChan l
                 = Some (mkChan (buf ch) (capacity ch) true)).
  { transitivity
      (<[logChan l := mkChan (buf ch) (capacity ch) true]> (chans w)
         !! logChan l); [subst w1; by open_world w|].
    apply list_lookup_insert_eq. by eapply lookup_lt_Some. }
  assert (Hw1 : configs w1 = configs w /\ files w1 = files w /\
                openFails w1 = openFails w /\ writeFails w1 = writeFails w /\
                stderr w1 = stderr w /\ logger w1 = None)
    by (subst w1; by open_world w).
  destruct Hw1 as (Hc1 & Hf1 & Ho1 & Hwf1 & He1 & Hl1).
  destruct (start_run l w1 _ c Hch1) as (w2 & Hd & Hch2 & Hf2 & He2 & _);
    [by rewrite Hc1|].
  cbn [buf capacity closed] in Hd, Hch2, Hf2, He2.
  rewrite Hf1, Ho1, Hwf1 in Hf2. rewrite He1, Ho1, Hwf1 in He2.
  exists w1, w2. do 5 (split; [done|]). split; [|split; [done|]].
  - rewrite Hch2. apply list_lookup_insert_eq. by eapply lookup_lt_Some.
  - split; [done|]. intros Hok. by rewrite Hf2, entry_files_written.
Qed.

Lemma Stop_then_writer_persists_queue_witness :
  exists w1 w2,
    Stop (world_of ((Error (DateUTC 2025 10 31 12 0 0) "disk full";;
                     Warn (DateUTC 2025 10 31 12 0 1) "retrying") running))
    = Returned tt w1 /\
    logger w1 = None /\ files w1 = [] /\
    start 3 runningLogger w1 = Returned false w2 /\
    files w2
    = [("/tmp/nexus_2025-10-31T12.log",
        output (Log.mk (DateUTC 2025 10 31 12 0 0) "ERROR" "disk full"));
       ("/tmp/nexus_2025-10-31T12.log",
        output (Log.mk (DateUTC 2025 10 31 12 0 1) "WARN" "retrying"))].
Proof.
  destruct (Stop_then_writer_persists_queue runningLogger
              (world_of ((Error (DateUTC 2025 10 31 12 0 0) "disk full";;
                          Warn (DateUTC 2025 10 31 12 0 1) "retrying")
                           running))
              (mkChan [Log.mk (DateUTC 2025 10 31 12 0 0) "ERROR" "disk full";
                       Log.mk (DateUTC 2025 10 31 12 0 1) "WARN" "retrying"]
                 10000 false)
              cfgHour)
    as (w1 & w2 & Hs & Hl & Hf1 & _ & Hst & _ & _ & _ & Hf2);
    [by vm_compute..|].
  exists w1, w2. split; [exact Hs|]. split; [exact Hl|].
  split; [exact Hf1|]. split; [exact Hst|].
  rewrite Hf2; [by vm_compute|].
  intros log Hin. split; apply not_elem_of_nil.
Defined.

(** ** Submitting entries *)

Lemma passes_false (l : Logging) (log : Log.t) :
  passes l log = false <-> rank (Log.Level log) < logLevel l.
Proof. unfold passes. rewrite negb_false_iff. apply Z.ltb_lt. Qed.

Lemma passes_true (l : Logging) (log : Log.t) :
  passes l log = true <-> logLevel l <= rank (Log.Level log).
Proof. unfold passes. rewrite negb_true_iff. apply Z.ltb_ge. Qed.

(** An emitted entry, field by field. *)
Lemma addLog_emit_fields (l : Logging) (log : Log.t) (w : World) (ch : Chan) :
  passes l log = true -> is_Some (logger w) ->
  chans w !! logChan l = Some ch -> closed ch = false ->
  Z.of_nat (length (buf ch)) < capacity ch ->
  exists w1, addLog (Some l) log w = Returned tt w1 /\
    stdout w1 = stdout w ++ [consoleLine log] /\
    chans w1 = <[logChan l := mkChan (buf ch ++ [log]) (capacity ch) false]>
                 (chans w) /\
    logger w1 = logger w /\ files w1 = files w /\ stderr w1 = stderr w /\
    configs w1 = configs w /\ goroutines w1 = goroutines w /\
    openFails w1 = openFails w /\ writeFails w1 = writeFails w.
Proof.
  intros Hp Hrun Hch Hopen Hroom. apply passes_true in Hp.
  rewrite (addLog_above _ _ _ Hp Hrun).
  eexists. split.
  - apply (send_room _ _ _ ch); [by open_world w|done..].
  - by open_world w.
Qed.

(** A run of [submit] on a queue with room, field by field. *)
Lemma submit_run (l : Logging) (logs : list Log.t) (w : World) (ch : Chan) :
  is_Some (logger w) ->
  chans w !! logChan l = Some ch -> closed ch = false ->
  Z.of_nat (length (buf ch) + length (List.filter (passes l) logs))
  <= capacity ch ->
  exists w', submit (Some l) logs w = Returned tt w' /\
    stdout w' = stdout w ++ (consoleLine <$> List.filter (passes l) logs) /\
    chans w'
    = <[logChan l :=
          mkChan (buf ch ++ List.filter (passes l) logs) (capacity ch) false]>
        (chans w) /\
    logger w' = logger w /\ files w' = files w /\ configs w' = configs w /\
    openFails w' = openFails w /\ writeFails w' = writeFails w.
Proof.
  revert w ch. induction logs as [|log logs IH]; intros w ch Hrun Hch Hopen Hcap.
  - exists w. cbn [submit List.filter fmap list_fmap]. rewrite !app_nil_r.
    repeat split; try done.
    symmetry. apply list_insert_id. rewrite Hch. f_equal.
    destruct ch as [b cp cl]. cbn in *. by subst.
  - cbn [submit List.filter] in *. run.
    destruct (passes l log) eqn:Hp.
    + cbn [length] in Hcap.
      destruct (addLog_emit_fields l log w ch Hp Hrun Hch Hopen)
        as (w1 & -> & Hso1 & Hch1 & Hl1 & Hf1 & _ & Hc1 & _ & Ho1 & Hw1);
        [lia|].
      destruct (IH w1 (mkChan (buf ch ++ [log]) (capacity ch) false))
        as (w' & Hs' & Hso' & Hch' & Hl' & Hf' & Hc' & Ho' & Hw').
      * by rewrite Hl1.
      * rewrite Hch1. apply list_lookup_insert_eq. by eapply lookup_lt_Some.
      * done.
      * cbn [buf capacity]. rewrite length_app. cbn [length]. lia.
      * exists w'. split; [exact Hs'|]. cbn [buf capacity] in Hch'.
        rewrite Hso', Hch', Hl', Hf', Hc', Ho', Hw', Hso1, Hch1, Hl1, Hf1,
          Hc1, Ho1, Hw1.
        rewrite list_insert_insert_eq, fmap_cons, <- !(assoc_L (++)).
        done.
    + apply passes_false in Hp. rewrite (addLog_below _ _ _ Hp).
      by apply IH.
Qed.

(** Entries submitted one after the other are filtered one by one; those the
    threshold lets through are printed on the console and appended to the
    queue in the order of submission, as long as the queue has room for
    them.  Nothing is written to a file by the submitting calls. *)
Theorem submit_keeps_order (l : Logging) (logs : list Log.t) (w : World)
    (ch : Chan) :
  is_Some (logger w) ->
  chans w !! logChan l = Some ch -> closed ch = false ->
  Z.of_nat (length (buf ch) + length (List.filter (passes l) logs))
  <= capacity ch ->
  exists w', submit (Some l) logs w = Returned tt w' /\
    stdout w' = stdout w ++ (consoleLine <$> List.filter (passes l) logs) /\
    chans w'
    = <[logChan l :=
          mkChan (buf ch ++ List.filter (passes l) logs) (capacity ch) false]>
        (chans w) /\
    logger w' = logger w /\ files w' = files w.
Proof.
  intros Hrun Hch Hopen Hcap.
  destruct (submit_run l logs w ch Hrun Hch Hopen Hcap)
    as (w' & Hs & Hso & Hch' & Hl & Hf & _).
  exists w'. by repeat split.
Qed.

Lemma submit_keeps_order_witness :
  exists w',
    submit (Some runningLogger)
      [Log.mk (DateUTC 2025 10 31 12 0 0) "ERROR" "disk full";
       Log.mk (DateUTC 2025 10 31 12 0 1) "TRACE" "not a level";
       Log.mk (DateUTC 2025 10 31 12 0 2) "WARN" "retrying"] running
    = Returned tt w' /\
    (buf <$> chans w')
    = [[Log.mk (DateUTC 2025 10 31 12 0 0) "ERROR" "disk full";
        Log.mk (DateUTC 2025 10 31 12 0 2) "WARN" "retrying"]].
Proof.
  destruct (submit_keeps_order runningLogger
      [Log.mk (DateUTC 2025 10 31 12 0 0) "ERROR" "disk full";
       Log.mk (DateUTC 2025 10 31 12 0 1) "TRACE" "not a level";
       Log.mk (DateUTC 2025 10 31 12 0 2) "WARN" "retrying"] running
      (mkChan [] 10000 false))
    as (w' & Hs & _ & Hch & _).
  - by eexists.
  - reflexivity.
  - reflexivity.
  - by vm_compute.
  - exists w'. split; [exact Hs|]. rewrite Hch. by vm_compute.
Defined.

(** ** Initialization, continued *)

Lemma defaulted_fields (goos : string) (c : Config.t) :
  Config.AppName (defaulted goos c) = Config.AppName c /\
  Config.AutoStop (defaulted goos c) = Config.AutoStop c /\
  Config.Location (defaulted goos c)
  = (if (Config.Location c =? "")%string then
       if (goos =? "windows")%string
       then "C:\ProgramData\" +:+ Config.AppName c +:+ "\logs"
       else "/var/log/" +:+ Config.AppName c
     else Config.Location c).
Proof.
  unfold defaulted. destruct c as [app loc per lev auto]. cfg_simpl.
  destruct (loc =? "")%string; [destruct (goos =? "windows")%string|];
    cfg_simpl; destruct (per =? "")%string; cfg_simpl;
    by destruct (lev =? "")%string.
Qed.

Lemma eqb_app_cons (a : ascii) (s t : string) :
  (String a s +:+ t =? "")%string = false.
Proof. reflexivity. Qed.

(** [Init] finds nothing left to fill in a configuration it has filled in. *)
Lemma defaulted_idempotent (goos : string) (c : Config.t) :
  defaulted goos (defaulted goos c) = defaulted goos c.
Proof.
  unfold defaulted. destruct c as [app loc per lev auto]. cfg_simpl.
  destruct (loc =? "")%string eqn:Hloc;
    [destruct (goos =? "windows")%string|]; cfg_simpl;
    destruct (per =? "")%string eqn:Hper; cfg_simpl;
    destruct (lev =? "")%string eqn:Hlev; cfg_simpl;
    do 3 (rewrite ?eqb_app_cons, ?Hloc, ?Hper, ?Hlev;
          change ((LogPeriodHour =? "")%string) with false;
          change ((INFO =? "")%string) with false;
          cbn iota; cfg_simpl);
    reflexivity.
Qed.

Lemma rank_lookup (name : string) (r : Z) :
  logLevels !! name = Some r -> rank name = r /\ 1 <= r <= 5.
Proof.
  intros Hn. split; [unfold rank; by rewrite Hn|].
  apply logLevels_lookup in Hn.
  repeat match goal with
         | H : _ \/ _ |- _ => destruct H
         | H : _ /\ _ |- _ => destruct H
         end; lia.
Qed.

(** What a successful [Init] has done. *)
Lemma Init_success_inv (p : nat) (c : Config.t) (w w' : World) :
  configs w !! p = Some c -> Init (Some p) w = Returned None w' ->
  Config.AppName c <> "" /\
  exists lvl,
    logLevels !! Config.Level (defaulted (GOOS w) c) = Some lvl /\
    w' = set_goroutines
           (goroutines w
              ++ Writer (mkLogging p (Config.Location (defaulted (GOOS w) c))
                           (length (chans w)) lvl)
                 :: (if Config.AutoStop (defaulted (GOOS w) c)
                     then [SignalStopper] else []))
           (set_mkdirs
              (mkdirs w ++ [Config.Location (defaulted (GOOS w) c);
                            Config.Location (defaulted (GOOS w) c)])
              (set_logger
                 (Some (mkLogging p (Config.Location (defaulted (GOOS w) c))
                          (length (chans w)) lvl))
                 (set_chans (chans w ++ [mkChan [] 10000 false])
                    (set_configs (<[p := defaulted (GOOS w) c]> (configs w))
                       w)))).
Proof.
  intros Hc. rewrite (Init_Some _ _ _ Hc).
  destruct (String.eqb_spec (Config.AppName c) ""); [done|]. cbv zeta.
  destruct (logLevels !! _) as [lvl|] eqn:Hlvl; [|done].
  intros [= <-]. split; [done|]. by exists lvl.
Qed.

(** [Init] returns nil exactly when the application name is set and the
    level is unset or a name of the severity table. *)
Theorem Init_returns_nil_iff (p : nat) (c : Config.t) (w : World) :
  configs w !! p = Some c ->
  (exists w', Init (Some p) w = Returned None w') <->
  Config.AppName c <> "" /\
  (Config.Level c = "" \/ is_Some (logLevels !! Config.Level c)).
Proof.
  intros Hc. rewrite (Init_Some _ _ _ Hc).
  destruct (String.eqb_spec (Config.AppName c) "") as [Happ|Happ].
  { split; [by intros [w' ?]|]. by intros [? _]. }
  cbv zeta. rewrite defaulted_Level.
  destruct (String.eqb_spec (Config.Level c) "") as [Hlev|Hlev].
  - replace (logLevels !! INFO) with (Some 1)
      by (symmetry; apply logLevels_lookup; auto).
    split; [auto|]. intros _. by eexists.
  - destruct (logLevels !! Config.Level c) as [lvl|].
    + split; [intros _; split; [done|right; by eexists]|].
      intros _. by eexists.
    + split; [by intros [w' ?]|]. intros [_ [?|[? ?]]]; done.
Qed.

Lemma Init_returns_nil_iff_witness :
  (exists w', Init (Some 0%nat) (host cfg24h) = Returned None w') <->
  Config.AppName cfg24h <> "" /\
  (Config.Level cfg24h = "" \/ is_Some (logLevels !! Config.Level cfg24h)).
Proof. apply (Init_returns_nil_iff 0 cfg24h (host cfg24h)). reflexivity. Defined.

(** A successful [Init] sets the package-level logger to a logger on the
    given configuration, with the configured directory as path, the rank of
    the configured level as threshold and a new, empty, open queue of
    capacity 10000; it starts one writer for it, and the signal goroutine
    when [AutoStop] is set; it prints nothing and writes no file. *)
Theorem Init_starts_logger (p : nat) (c : Config.t) (w w' : World) :
  configs w !! p = Some c ->
  Init (Some p) w = Returned None w' ->
  exists l,
    logger w' = Some l /\ config l = p /\
    path l = Config.Location (defaulted (GOOS w) c) /\
    logLevel l = rank (Config.Level (defaulted (GOOS w) c)) /\
    1 <= logLevel l <= 5 /\
    logChan l = length (chans w) /\
    chans w' = chans w ++ [mkChan [] 10000 false] /\
    goroutines w'
    = goroutines w
      ++ Writer l :: (if Config.AutoStop c then [SignalStopper] else []) /\
    configs w' = <[p := defaulted (GOOS w) c]> (configs w) /\
    stdout w' = stdout w /\ files w' = files w /\ handler w' = handler w.
Proof.
  intros Hc Hi.
  destruct (Init_success_inv _ _ _ _ Hc Hi) as (_ & lvl & Hlvl & ->).
  apply rank_lookup in Hlvl as [Hr Hb].
  destruct (defaulted_fields (GOOS w) c) as (_ & Hauto & _).
  exists (mkLogging p (Config.Location (defaulted (GOOS w) c))
            (length (chans w)) lvl).
  split; [by open_world w|]. cbn [config path logLevel logChan].
  rewrite Hr, Hauto. repeat split; try done; try lia; by open_world w.
Qed.

Lemma Init_starts_logger_witness :
  exists l,
    logger running = Some l /\ config l = 0%nat /\
    path l = Config.Location (defaulted (GOOS (host cfgHour)) cfgHour) /\
    logLevel l = rank (Config.Level (defaulted (GOOS (host cfgHour)) cfgHour))
    /\ 1 <= logLevel l <= 5 /\
    logChan l = length (chans (host cfgHour)) /\
    chans running = chans (host cfgHour) ++ [mkChan [] 10000 false] /\
    goroutines running
    = goroutines (host cfgHour)
      ++ Writer l
         :: (if Config.AutoStop cfgHour then [SignalStopper] else []) /\
    configs running
    = <[0%nat := defaulted (GOOS (host cfgHour)) cfgHour]>
        (configs (host cfgHour)) /\
    stdout running = stdout (host cfgHour) /\
    files running = files (host cfgHour) /\
    handler running = handler (host cfgHour).
Proof.
  apply (Init_starts_logger 0 cfgHour (host cfgHour) running).
  - reflexivity.
  - by vm_compute.
Defined.

(** [Init] fills in the caller's configuration before it looks at the level:
    whenever the application name is set, the configuration the caller holds
    afterwards has the directory derived from the platform and the name in
    place of an empty directory, Hour in place of an empty period and INFO in
    place of an empty level, also when [Init] then rejects the level; fields
    that were set are kept. *)
Theorem Init_fills_defaults (p : nat) (c : Config.t) (w : World) :
  configs w !! p = Some c -> Config.AppName c <> "" ->
  exists c', configs (world_of (Init (Some p) w)) !! p = Some c' /\
    Config.AppName c' = Config.AppName c /\
    Config.AutoStop c' = Config.AutoStop c /\
    Config.Location c'
    = (if (Config.Location c =? "")%string then
         if (GOOS w =? "windows")%string
         then "C:\ProgramData\" +:+ Config.AppName c +:+ "\logs"
         else "/var/log/" +:+ Config.AppName c
       else Config.Location c) /\
    Config.FilePeriod c'
    = (if (Config.FilePeriod c =? "")%string then LogPeriodHour
       else Config.FilePeriod c) /\
    Config.Level c'
    = (if (Config.Level c =? "")%string then INFO else Config.Level c).
Proof.
  intros Hc Happ. rewrite (Init_Some _ _ _ Hc).
  destruct (String.eqb_spec (Config.AppName c) ""); [done|]. cbv zeta.
  destruct (defaulted_fields (GOOS w) c) as (Ha & Hauto & Hloc).
  exists (defaulted (GOOS w) c).
  rewrite Ha, Hauto, Hloc, defaulted_FilePeriod, defaulted_Level.
  split; [|done].
  assert (Hlk : <[p := defaulted (GOOS w) c]> (configs w) !! p
                = Some (defaulted (GOOS w) c))
    by (apply list_lookup_insert_eq; by eapply lookup_lt_Some).
  destruct (logLevels !! _); by open_world w.
Qed.

Lemma Init_fills_defaults_witness :
  exists c', configs (world_of (Init (Some 0%nat) (host cfg24h))) !! 0%nat
             = Some c' /\
    Config.AppName c' = "nexus" /\ Config.AutoStop c' = false /\
    Config.Location c' = "/var/log/nexus" /\
    Config.FilePeriod c' = "24h" /\ Config.Level c' = "INFO".
Proof.
  apply (Init_fills_defaults 0 cfg24h (host cfg24h)).
  - reflexivity.
  - discriminate.
Defined.

(** Without an application name, be it that the configuration is nil or that
    its name is empty, [Init] returns the error "AppName is required" and
    starts nothing; a configuration with an empty name is not even filled
    in. *)
Theorem Init_requires_AppName (w : World) :
  (exists w', Init None w = Returned (Some "AppName is required") w' /\
     logger w' = logger w /\ chans w' = chans w /\
     goroutines w' = goroutines w /\ mkdirs w' = mkdirs w) /\
  (forall p c, configs w !! p = Some c -> Config.AppName c = "" ->
     Init (Some p) w = Returned (Some "AppName is required") w).
Proof.
  split.
  - rewrite Init_nil. eexists. split; [reflexivity|]. by open_world w.
  - intros p c Hc Happ. rewrite (Init_Some _ _ _ Hc), Happ. reflexivity.
Qed.

Lemma Init_requires_AppName_witness :
  Init (Some 0%nat) (host Config.zero)
  = Returned (Some "AppName is required") (host Config.zero).
Proof.
  destruct (Init_requires_AppName (host Config.zero)) as [_ H].
  apply (H 0%nat Config.zero); reflexivity.
Defined.

(** [Init] on a running logger replaces it without closing its queue: the
    earlier queue keeps its content and stays open, also through the next
    [Stop], which closes the new queue only. *)
Theorem Init_replaces_running_logger (p : nat) (c : Config.t) (w w' : World)
    (l0 : Logging) (ch0 : Chan) :
  logger w = Some l0 -> chans w !! logChan l0 = Some ch0 ->
  configs w !! p = Some c -> Init (Some p) w = Returned None w' ->
  exists l w'',
    logger w' = Some l /\ logChan l <> logChan l0 /\
    chans w' !! logChan l0 = Some ch0 /\
    Stop w' = Returned tt w'' /\
    chans w'' !! logChan l0 = Some ch0 /\
    chans w'' !! logChan l = Some (mkChan [] 10000 true).
Proof.
  intros Hl0 Hch0 Hc Hi.
  destruct (Init_success_inv _ _ _ _ Hc Hi) as (_ & lvl & _ & Hw').
  set (l := mkLogging p (Config.Location (defaulted (GOOS w) c))
              (length (chans w)) lvl) in *.
  assert (Hf : logger w' = Some l /\
               chans w' = chans w ++ [mkChan [] 10000 false])
    by (subst w'; by open_world w).
  destruct Hf as [Hl Hch].
  assert (Hlc : logChan l = length (chans w)) by done.
  pose proof (lookup_lt_Some _ _ _ Hch0) as Hlt.
  assert (Hne : logChan l <> logChan l0) by lia.
  assert (Hnew : chans w' !! logChan l = Some (mkChan [] 10000 false)).
  { rewrite Hch, Hlc, lookup_app_r, Nat.sub_diag by done. reflexivity. }
  assert (Hold : chans w' !! logChan l0 = Some ch0).
  { by rewrite Hch, lookup_app_l. }
  pose proof (Stop_running _ _ _ Hl Hnew eq_refl) as Hs.
  eexists l, _. split; [done|]. split; [done|]. split; [done|].
  split; [exact Hs|]. cbn [buf capacity].
  split.
  - transitivity (<[logChan l := mkChan [] 10000 true]> (chans w')
                    !! logChan l0); [by open_world w'|].
    by rewrite list_lookup_insert_ne.
  - transitivity (<[logChan l := mkChan [] 10000 true]> (chans w')
                    !! logChan l); [by open_world w'|].
    apply list_lookup_insert_eq. by eapply lookup_lt_Some.
Qed.

Lemma Init_replaces_running_logger_witness :
  exists l w'',
    logger (world_of (Init (Some 0%nat) running)) = Some l /\
    logChan l <> logChan runningLogger /\
    chans (world_of (Init (Some 0%nat) running)) !! logChan runningLogger
    = Some (mkChan [] 10000 false) /\
    Stop (world_of (Init (Some 0%nat) running)) = Returned tt w'' /\
    chans w'' !! logChan runningLogger = Some (mkChan [] 10000 false) /\
    chans w'' !! logChan l = Some (mkChan [] 10000 true).
Proof.
  apply (Init_replaces_running_logger 0 cfgHour running
           (world_of (Init (Some 0%nat) running)) runningLogger
           (mkChan [] 10000 false)); by vm_compute.
Defined.

(** [Init] can be called again on a configuration it has accepted: it
    succeeds again and leaves the configuration as the first call left it. *)
Theorem Init_again_keeps_config (p : nat) (c : Config.t) (w w1 : World) :
  configs w !! p = Some c -> Init (Some p) w = Returned None w1 ->
  exists w2, Init (Some p) w1 = Returned None w2 /\ configs w2 = configs w1.
Proof.
  intros Hc Hi.
  destruct (Init_success_inv _ _ _ _ Hc Hi) as (Happ & lvl & Hlvl & Hw1).
  assert (Hf : GOOS w1 = GOOS w /\
               configs w1 = <[p := defaulted (GOOS w) c]> (configs w))
    by (subst w1; by open_world w).
  destruct Hf as [Hg Hcs].
  assert (Hc1 : configs w1 !! p = Some (defaulted (GOOS w) c)).
  { rewrite Hcs. apply list_lookup_insert_eq. by eapply lookup_lt_Some. }
  destruct (defaulted_fields (GOOS w) c) as (Ha & _).
  rewrite (Init_Some _ _ _ Hc1), Ha.
  destruct (String.eqb_spec (Config.AppName c) ""); [done|]. cbv zeta.
  rewrite Hg, defaulted_idempotent, Hlvl.
  eexists. split; [reflexivity|].
  transitivity (<[p := defaulted (GOOS w) c]> (configs w1));
    [by open_world w1|].
  by apply list_insert_id.
Qed.

Lemma Init_again_keeps_config_witness :
  exists w2, Init (Some 0%nat) running = Returned None w2 /\
             configs w2 = configs running.
Proof.
  apply (Init_again_keeps_config 0 cfgHour (host cfgHour) running).
  - reflexivity.
  - by vm_compute.
Defined.

(** ** Filtering, continued *)

(** An entry whose level is not a name of the severity table ranks 0, below
    every threshold [Init] can set: the logger [Init] has started drops it
    without a trace. *)
Theorem unknown_level_is_dropped (p : nat) (c : Config.t) (w w' : World)
    (l : Logging) (log : Log.t) :
  configs w !! p = Some c -> Init (Some p) w = Returned None w' ->
  logger w' = Some l -> logLevels !! Log.Level log = None ->
  addLog (Some l) log w' = Returned tt w'.
Proof.
  intros Hc Hi Hl Hnone.
  destruct (Init_success_inv _ _ _ _ Hc Hi) as (_ & lvl & Hlvl & Hw').
  assert (Hl' : logger w'
                = Some (mkLogging p (Config.Location (defaulted (GOOS w) c))
                          (length (chans w)) lvl))
    by (subst w'; by open_world w).
  apply rank_lookup in Hlvl as [_ Hb].
  apply addLog_below. unfold rank. rewrite Hnone. cbn [default].
  rewrite Hl in Hl'. injection Hl' as ->. cbn [logLevel]. lia.
Qed.

Lemma unknown_level_is_dropped_witness :
  addLog (Some runningLogger)
    (Log.mk (DateUTC 2025 10 31 12 0 0) "TRACE" "not a level") running
  = Returned tt running.
Proof.
  apply (unknown_level_is_dropped 0 cfgHour (host cfgHour) running);
    by vm_compute.
Defined.

(** ** What never happens *)

Lemma addLog_on_logger_safe (l : Logging) (log : Log.t) (w : World) :
  logger_ok w -> logger w = Some l ->
  panicked (addLog (Some l) log w) = false.
Proof.
  unfold logger_ok. intros Hok Hl. rewrite Hl in Hok.
  destruct Hok as (ch & Hch & Hopen).
  destruct (passes l log) eqn:Hp.
  - apply passes_true in Hp. rewrite addLog_above by (done || by eexists).
    assert (Hch' : chans (set_stdout (stdout w ++ [consoleLine log]) w)
                   !! logChan l = Some ch) by (by open_world w).
    destruct (Z.lt_ge_cases (Z.of_nat (length (buf ch))) (capacity ch)).
    + by rewrite (send_room _ _ _ ch).
    + by rewrite (send_full _ _ _ ch).
  - apply passes_false in Hp. by rewrite addLog_below.
Qed.

(** A level helper called in a state a program can reach, that is, once the
    calls before it have returned or parked, does not panic: it returns, or
    parks on the full queue. *)
Theorem helpers_never_panic (w : World) (now : Time) (msg : string) :
  reachable w ->
  panicked (Error now msg w) = false /\
  panicked (Info now msg w) = false /\
  panicked (Debug now msg w) = false /\
  panicked (Warn now msg w) = false /\
  panicked (Fatal now msg w) = false.
Proof.
  intros Hr. pose proof (reachable_ok w Hr) as Hok.
  unfold Error, Info, Debug, Warn, Fatal. run.
  destruct (logger w) as [l|] eqn:Hl.
  - repeat split; by apply addLog_on_logger_safe.
  - by rewrite !addLog_without_logger.
Qed.

Lemma helpers_never_panic_witness :
  panicked (Error (DateUTC 2025 10 31 12 0 0) "disk full"
              (world_of (exec (CallInit (Some 0%nat)) (host cfgHour))))
  = false.
Proof.
  destruct (helpers_never_panic
              (world_of (exec (CallInit (Some 0%nat)) (host cfgHour)))
              (DateUTC 2025 10 31 12 0 0) "disk full") as [H _]; [|exact H].
  apply reach_step; [|by vm_compute].
  apply (reach_step _ (CallNewConfig cfgHour)); [|by vm_compute].
  apply reach_initial.
Defined.



(** ** Invariants of the channel heap *)

Lemma heap_step_from (w0 w w' : World) :
  chans w = chans w0 -> goroutines w = goroutines w0 ->
  heap_step w w' -> heap_step w0 w'.
Proof.
  intros Hc Hg [Hc' Hg'|i ch ch' Hi Hs Hc' Hg'|l extra Hl Hc' Hg' He];
    rewrite ?Hc, ?Hg in *.
  - by apply heap_same.
  - by apply (heap_chan _ _ i ch ch').
  - by apply (heap_new _ _ l extra).
Qed.

Lemma heap_step_to (w w1 w' : World) :
  chans w' = chans w1 -> goroutines w' = goroutines w1 ->
  heap_step w w1 -> heap_step w w'.
Proof.
  intros Hc Hg [Hc' Hg'|i ch ch' Hi Hs Hc' Hg'|l extra Hl Hc' Hg' He].
  - apply heap_same; congruence.
  - eapply heap_chan; try done; congruence.
  - eapply heap_new; try done; congruence.
Qed.

Lemma send_heap (c : nat) (x : Log.t) (w : World) :
  heap_step w (world_of (send c x w)).
Proof.
  unfold send. run.
  destruct (chans w !! c) as [ch|] eqn:Hch; [|by apply heap_same].
  destruct (closed ch) eqn:Hcl; [by apply heap_same|].
  destruct (Z.ltb_spec (Z.of_nat (length (buf ch))) (capacity ch));
    [|by apply heap_same].
  apply (heap_chan _ _ c ch (mkChan (buf ch ++ [x]) (capacity ch) false));
    [done|by apply chan_send|by open_world w..].
Qed.

Lemma addLog_heap (l : option Logging) (log : Log.t) (w : World) :
  heap_step w (world_of (addLog l log w)).
Proof.
  unfold addLog, Printf. run.
  destruct (logger w); [|by apply heap_same].
  destruct l as [l|]; [|by apply heap_same].
  destruct (_ <? _); [by apply heap_same|].
  apply (heap_step_from w (set_stdout (stdout w ++ [consoleLine log]) w));
    [by open_world w..|].
  apply send_heap.
Qed.

Lemma Stop_heap (w : World) : heap_step w (world_of (Stop w)).
Proof.
  unfold Stop, close. run.
  destruct (logger w) as [l|]; [|by apply heap_same]. run.
  destruct (chans w !! logChan l) as [ch|] eqn:Hch; [|by apply heap_same].
  destruct (closed ch) eqn:Hcl; [by apply heap_same|].
  apply (heap_chan _ _ (logChan l) ch
           (mkChan (buf ch) (capacity ch) true));
    [done|by apply chan_close|by open_world w..].
Qed.

Lemma start_step_heap (l : Logging) (w : World) :
  heap_step w (world_of (start_step l w)).
Proof.
  unfold start_step, load, Fprintf_stderr. run.
  destruct (chans w !! logChan l) as [ch|] eqn:Hch; [|by apply heap_same].
  destruct (buf ch) as [|log rest] eqn:Hb;
    [destruct (closed ch); by apply heap_same|].
  assert (Hs : heap_step w
            (set_chans (<[logChan l := mkChan rest (capacity ch) (closed ch)]>
                          (chans w)) w)).
  { apply (heap_chan _ _ (logChan l) ch
             (mkChan rest (capacity ch) (closed ch)));
      [done|by apply (chan_recv ch log rest)|by open_world w..]. }
  destruct (configs _ !! config l) as [c|]; [|done].
  destruct (bool_decide _);
    [eapply heap_step_to; [| |exact Hs]; by open_world w|].
  destruct (bool_decide _);
    (eapply heap_step_to; [| |exact Hs]; by open_world w).
Qed.

Lemma Init_heap (cfg : option nat) (w : World) :
  heap_step w (world_of (Init cfg w)).
Proof.
  destruct cfg as [p|].
  - destruct (configs w !! p) as [c|] eqn:Hc;
      [|rewrite Init_dangling by done; by apply heap_same].
    rewrite (Init_Some _ _ _ Hc).
    destruct (_ =? _)%string; [by apply heap_same|]. cbv zeta.
    destruct (logLevels !! _) as [lvl|].
    + eapply (heap_new _ _
                (mkLogging p (Config.Location (defaulted (GOOS w) c))
                   (length (chans w)) lvl)
                (if Config.AutoStop (defaulted (GOOS w) c)
                 then [SignalStopper] else [])); [done|by open_world w..|].
      by destruct (Config.AutoStop _).
    + apply heap_same; by open_world w.
  - rewrite Init_nil. apply heap_same; by open_world w.
Qed.

Lemma exec_heap (c : Call) (w : World) : heap_step w (world_of (exec c w)).
Proof.
  destruct c; cbn [exec].
  - apply heap_same; by open_world w.
  - apply heap_same; by open_world w.
  - pose proof (Init_heap cfg w) as Hi. revert Hi. run.
    by destruct (Init cfg w).
  - apply Stop_heap.
  - apply heap_same; by open_world w.
  - unfold Error. run. apply addLog_heap.
  - unfold Info. run. apply addLog_heap.
  - unfold Debug. run. apply addLog_heap.
  - unfold Warn. run. apply addLog_heap.
  - unfold Fatal. run. apply addLog_heap.
  - pose proof (start_step_heap l w) as Hs. revert Hs. run.
    by destruct (start_step l w).
  - apply send_heap.
Qed.

Lemma chan_step_bounded (ch ch' : Chan) :
  chan_step ch ch' ->
  capacity ch = 10000 /\ Z.of_nat (length (buf ch)) <= capacity ch ->
  capacity ch' = 10000 /\ Z.of_nat (length (buf ch')) <= capacity ch'.
Proof.
  intros [ch0 x Hopen Hroom|ch0 x rest Hb|ch0 Hopen] [Hc Hl];
    cbn [buf capacity]; split; try done.
  - rewrite length_app. cbn [length]. lia.
  - rewrite Hb in Hl. cbn [length] in Hl. lia.
Qed.

(** The queue is bounded: in every state a program can reach, each channel
    has capacity 10000 and holds at most 10000 entries. *)
Theorem queues_stay_bounded (w : World) : reachable w -> queues_bounded w.
Proof.
  induction 1 as [goos o wr|w c Hr IH Hp].
  - intros i ch. cbn. by rewrite lookup_nil.
  - destruct (exec_heap c w) as [Hc _|j ch0 ch' Hj Hs Hc _|l extra _ Hc _ _];
      intros i ch; rewrite Hc.
    + apply IH.
    + intros Hi. apply list_lookup_insert_Some in Hi
        as [(-> & <- & _)|[_ Hi]]; [|by eapply IH].
      eapply chan_step_bounded; [exact Hs|by eapply IH].
    + intros Hi. apply lookup_app_Some in Hi as [Hi|[_ Hi]]; [by eapply IH|].
      apply list_lookup_singleton_Some in Hi as [_ <-]. cbn. lia.
Qed.

Lemma queues_stay_bounded_witness :
  reachable (world_of (exec (CallInit (Some 0%nat)) (host cfgHour))) /\
  queues_bounded (world_of (exec (CallInit (Some 0%nat)) (host cfgHour))).
Proof.
  assert (Hr : reachable
                 (world_of (exec (CallInit (Some 0%nat)) (host cfgHour)))).
  { apply reach_step; [|by vm_compute].
    apply (reach_step _ (CallNewConfig cfgHour)); [|by vm_compute].
    apply reach_initial. }
  split; [exact Hr|]. apply queues_stay_bounded, Hr.
Defined.

Lemma writer_chans_app (gs gs' : list Goroutine) :
  writer_chans (gs ++ gs') = writer_chans gs ++ writer_chans gs'.
Proof.
  induction gs as [|[l|] gs IH]; cbn [writer_chans app]; [done| |done].
  by rewrite IH.
Qed.

(** Each queue has one consumer: in every state a program can reach, the
    writer goroutines started so far read the channels made so far, one
    writer per channel, in the order the channels were made. *)
Theorem one_writer_per_queue (w : World) :
  reachable w -> writer_chans (goroutines w) = seq 0 (length (chans w)).
Proof.
  induction 1 as [goos o wr|w c Hr IH Hp]; [done|].
  destruct (exec_heap c w) as [Hc Hg|j ch0 ch' Hj Hs Hc Hg|l extra Hl Hc Hg He];
    rewrite Hc, Hg.
  - done.
  - by rewrite length_insert.
  - rewrite writer_chans_app, length_app, seq_app, IH. cbn [writer_chans].
    by rewrite He, Hl.
Qed.

Lemma one_writer_per_queue_witness :
  writer_chans
    (goroutines (world_of (exec (CallInit (Some 0%nat)) (host cfgHour))))
  = seq 0 (length (chans (world_of (exec (CallInit (Some 0%nat))
                                      (host cfgHour))))).
Proof.
  apply one_writer_per_queue.
  apply reach_step; [|by vm_compute].
  apply (reach_step _ (CallNewConfig cfgHour)); [|by vm_compute].
  apply reach_initial.
Defined.

(** ** Rotation on the wall clock *)

Lemma cadence_of_withFilePeriod (p : LogPeriod) (cfg : Config.t) :
  cadence_of (Config.FilePeriod (Config.withFilePeriod p cfg)) = cadence_of p.
Proof. by destruct cfg. Qed.

Lemma filename_bucket_iff (cfg : Config.t) (c : Cadence) (t1 t2 : Time) :
  cadence_of (Config.FilePeriod cfg) = Some c ->
  filename cfg t1 = filename cfg t2 <-> bucket c t1 = bucket c t2.
Proof.
  intros Hc. rewrite !(FilenameFacts.filename_cadence _ _ _ Hc). split.
  - intros He. by apply FilenameFacts.datePart_inj, FilenameFacts.nexus_inj.
  - intros Hb. by rewrite (FilenameFacts.datePart_bucket _ _ _ Hb).
Qed.

Lemma abs_hours (t1 t2 : Time) :
  abs t1 / 3600 = abs t2 / 3600 <->
  (unixSec t1 + zoneOffset t1) / 3600 = (unixSec t2 + zoneOffset t2) / 3600.
Proof.
  unfold abs. change (unixToInternalDays * secondsPerDay) with 62135596800.
  split; intros H; revert H; Z.div_mod_to_equations; lia.
Qed.

Lemma absDays_days (t1 t2 : Time) :
  absDays t1 = absDays t2 <->
  (unixSec t1 + zoneOffset t1) / 86400 = (unixSec t2 + zoneOffset t2) / 86400.
Proof.
  unfold absDays, abs, secondsPerDay.
  change (unixToInternalDays * 86400) with 62135596800.
  split; intros H; revert H; Z.div_mod_to_equations; lia.
Qed.

Lemma absDays_weeks (t1 t2 : Time) :
  absDays t1 / 7 = absDays t2 / 7 <->
  ((unixSec t1 + zoneOffset t1) / 86400 + 3) / 7
  = ((unixSec t2 + zoneOffset t2) / 86400 + 3) / 7.
Proof.
  unfold absDays, abs, secondsPerDay.
  change (unixToInternalDays * 86400) with 62135596800.
  split; intros H; revert H; Z.div_mod_to_equations; lia.
Qed.

(** The log file changes with the local wall clock of the timestamps: under
    Hour two entries share their file exactly when their local times lie in
    the same clock hour, under Day in the same calendar day, and under Week
    in the same week from Monday to Sunday (1970-01-01 was a Thursday). *)
Theorem filename_rotates_on_local_clock (cfg : Config.t) (t1 t2 : Time) :
  let wall t := unixSec t + zoneOffset t in
  (filename (Config.withFilePeriod LogPeriodHour cfg) t1
   = filename (Config.withFilePeriod LogPeriodHour cfg) t2
   <-> wall t1 / 3600 = wall t2 / 3600) /\
  (filename (Config.withFilePeriod LogPeriodDay cfg) t1
   = filename (Config.withFilePeriod LogPeriodDay cfg) t2
   <-> wall t1 / 86400 = wall t2 / 86400) /\
  (filename (Config.withFilePeriod LogPeriodWeek cfg) t1
   = filename (Config.withFilePeriod LogPeriodWeek cfg) t2
   <-> (wall t1 / 86400 + 3) / 7 = (wall t2 / 86400 + 3) / 7).
Proof.
  cbv zeta. split; [|split].
  - rewrite (filename_bucket_iff _ Hourly)
      by (by rewrite cadence_of_withFilePeriod).
    rewrite bucket_Hourly_iff. apply abs_hours.
  - rewrite (filename_bucket_iff _ Daily)
      by (by rewrite cadence_of_withFilePeriod).
    rewrite bucket_Daily_iff. apply absDays_days.
  - rewrite (filename_bucket_iff _ Weekly)
      by (by rewrite cadence_of_withFilePeriod).
    rewrite bucket_Weekly_iff. apply absDays_weeks.
Qed.

(** A coarser period never splits what a finer one keeps together: entries
    in one hourly file would share their daily file, entries in one daily
    file would share their weekly and their monthly file, and entries in one
    monthly file would share their yearly file. *)
Theorem finer_period_refines_coarser (cfg : Config.t) (t1 t2 : Time) :
  (filename (Config.withFilePeriod LogPeriodHour cfg) t1
   = filename (Config.withFilePeriod LogPeriodHour cfg) t2 ->
   filename (Config.withFilePeriod LogPeriodDay cfg) t1
   = filename (Config.withFilePeriod LogPeriodDay cfg) t2) /\
  (filename (Config.withFilePeriod LogPeriodDay cfg) t1
   = filename (Config.withFilePeriod LogPeriodDay cfg) t2 ->
   filename (Config.withFilePeriod LogPeriodWeek cfg) t1
   = filename (Config.withFilePeriod LogPeriodWeek cfg) t2 /\
   filename (Config.withFilePeriod LogPeriodMonth cfg) t1
   = filename (Config.withFilePeriod LogPeriodMonth cfg) t2) /\
  (filename (Config.withFilePeriod LogPeriodMonth cfg) t1
   = filename (Config.withFilePeriod LogPeriodMonth cfg) t2 ->
   filename (Config.withFilePeriod LogPeriodYear cfg) t1
   = filename (Config.withFilePeriod LogPeriodYear cfg) t2).
Proof.
  rewrite !(filename_bucket_iff _ Hourly), !(filename_bucket_iff _ Daily),
    !(filename_bucket_iff _ Weekly), !(filename_bucket_iff _ Monthly),
    !(filename_bucket_iff _ Yearly)
    by (by rewrite cadence_of_withFilePeriod).
  split; [|split].
  - unfold bucket. intros H. apply cons_eq in H as [Hy H].
    apply cons_eq in H as [Hm H]. apply cons_eq in H as [Hd _].
    by rewrite Hy, Hm, Hd.
  - intros H. split.
    + apply bucket_Weekly_iff. apply bucket_Daily_iff in H. by rewrite H.
    + revert H. unfold bucket. intros H. apply cons_eq in H as [Hy H].
      apply cons_eq in H as [Hm _]. by rewrite Hy, Hm.
  - unfold bucket. intros H. apply cons_eq in H as [Hy _]. by rewrite Hy.
Qed.

Lemma finer_period_refines_coarser_witness :
  filename (Config.withFilePeriod LogPeriodWeek cfgHour)
    (DateUTC 2025 10 31 0 0 0)
  = filename (Config.withFilePeriod LogPeriodWeek cfgHour)
      (DateUTC 2025 10 31 23 59 59).
Proof.
  destruct (finer_period_refines_coarser cfgHour (DateUTC 2025 10 31 0 0 0)
              (DateUTC 2025 10 31 23 59 59)) as (_ & H & _).
  apply H. by vm_compute.
Defined.

(** ** The configuration behind a running logger *)

(** The writer reads the rotation period from the caller's configuration at
    each write, while the directory is the one [Init] has copied: when the
    caller overwrites the configuration the logger was started from, the next
    entry written, also one queued before, goes to the file named after the
    new configuration, in the logger's directory. *)
Theorem writer_reads_live_config (l : Logging) (w : World) (ch : Chan)
    (log : Log.t) (rest : list Log.t) (c c' : Config.t) :
  configs w !! config l = Some c ->
  chans w !! logChan l = Some ch -> buf ch = log :: rest ->
  Join (path l) (filename c' (Log.TimeStamp log)) ∉ openFails w ->
  Join (path l) (filename c' (Log.TimeStamp log)) ∉ writeFails w ->
  exists w1 w2,
    exec (CallSetConfig (config l) c') w = Returned tt w1 /\
    start_step l w1 = Returned true w2 /\
    files w2
    = files w ++ [(Join (path l) (filename c' (Log.TimeStamp log)),
                   output log)].
Proof.
  intros Hc Hch Hb Ho Hwf.
  set (w1 := set_configs (<[config l := c']> (configs w)) w).
  assert (Hw1 : chans w1 !! logChan l = Some ch /\
                configs w1 !! config l = Some c' /\ files w1 = files w /\
                openFails w1 = openFails w /\ writeFails w1 = writeFails w).
  { split; [subst w1; by open_world w|]. split; [|subst w1; by open_world w].
    transitivity (<[config l := c']> (configs w) !! config l);
      [subst w1; by open_world w|].
    apply list_lookup_insert_eq. by eapply lookup_lt_Some. }
  destruct Hw1 as (Hch1 & Hc1 & Hf1 & Ho1 & Hwf1).
  destruct (start_step_entry_fields _ _ _ _ _ _ Hch1 Hb Hc1)
    as (w2 & Hs & _ & Hf2 & _).
  exists w1, w2. split; [done|]. split; [done|].
  rewrite Hf2, Hf1, Ho1, Hwf1. unfold entry_files, fullpath.
  by rewrite !bool_decide_eq_false_2.
Qed.

Lemma writer_reads_live_config_witness :
  exists w1 w2,
    exec (CallSetConfig 0%nat cfgMonth)
      (world_of (Error (DateUTC 2025 10 31 12 0 0) "disk full" running))
    = Returned tt w1 /\
    start_step runningLogger w1 = Returned true w2 /\
    files w2
    = files (world_of (Error (DateUTC 2025 10 31 12 0 0) "disk full" running))
      ++ [("/tmp/nexus_2025-10.log",
           output (Log.mk (DateUTC 2025 10 31 12 0 0) "ERROR" "disk full"))].
Proof.
  apply (writer_reads_live_config runningLogger
           (world_of (Error (DateUTC 2025 10 31 12 0 0) "disk full" running))
           (mkChan [Log.mk (DateUTC 2025 10 31 12 0 0) "ERROR" "disk full"]
              10000 false)
           (Log.mk (DateUTC 2025 10 31 12 0 0) "ERROR" "disk full") []
           cfgHour cfgMonth); try (by vm_compute);
    vm_compute; by intros ?%elem_of_nil.
Defined.

(** ** From the call to the file *)

(** A whole session: after a successful [Init], entries submitted one after
    the other, [Stop], and the writer running to its end, the files hold one
    line for each entry that passed the threshold, in the order of submission
    and in the logger's directory, except for the entries whose file could
    not be opened or written; the logger is released. *)
Theorem session_persists_passing_entries (p : nat) (c : Config.t)
    (w w1 : World) (l : Logging) (logs : list Log.t) :
  configs w !! p = Some c -> Init (Some p) w = Returned None w1 ->
  logger w1 = Some l ->
  Z.of_nat (length (List.filter (passes l) logs)) <= 10000 ->
  exists w2 w3 w4,
    submit (Some l) logs w1 = Returned tt w2 /\
    Stop w2 = Returned tt w3 /\
    start (S (length (List.filter (passes l) logs))) l w3
    = Returned false w4 /\
    logger w4 = None /\
    files w4
    = files w
      ++ flat_map
           (entry_files (openFails w) (writeFails w) l (defaulted (GOOS w) c))
           (List.filter (passes l) logs).
Proof.
  intros Hc Hi Hl Hcap.
  destruct (Init_success_inv _ _ _ _ Hc Hi) as (_ & lvl & _ & Hw1).
  set (l0 := mkLogging p (Config.Location (defaulted (GOOS w) c))
               (length (chans w)) lvl) in *.
  assert (Hf : logger w1 = Some l0 /\
               chans w1 = chans w ++ [mkChan [] 10000 false] /\
               configs w1 = <[p := defaulted (GOOS w) c]> (configs w) /\
               files w1 = files w /\ openFails w1 = openFails w /\
               writeFails w1 = writeFails w)
    by (subst w1; by open_world w).
  destruct Hf as (Hl1 & Hch1 & Hcs1 & Hf1 & Ho1 & Hwf1).
  assert (l = l0) as -> by congruence.
  set (logs' := List.filter (passes l0) logs) in *.
  assert (Hnew : chans w1 !! logChan l0 = Some (mkChan [] 10000 false)).
  { rewrite Hch1. subst l0. cbn [logChan].
    rewrite lookup_app_r, Nat.sub_diag by done. reflexivity. }
  destruct (submit_run l0 logs w1 _ (ex_intro _ l0 Hl1) Hnew eq_refl)
    as (w2 & Hs2 & _ & Hch2 & Hl2 & Hf2 & Hc2 & Ho2 & Hwf2);
    [cbn [buf capacity length]; fold logs'; lia|].
  cbn [buf capacity app] in Hch2. fold logs' in Hch2.
  assert (Hch2' : chans w2 !! logChan l0 = Some (mkChan logs' 10000 false)).
  { rewrite Hch2. apply list_lookup_insert_eq. by eapply lookup_lt_Some. }
  rewrite Hl1 in Hl2.
  pose proof (Stop_running w2 l0 _ Hl2 Hch2' eq_refl) as Hs3.
  cbn [buf capacity] in Hs3.
  set (w3 := set_logger None
               (set_chans (<[logChan l0 := mkChan logs' 10000 true]>
                             (chans w2)) w2)) in *.
  assert (Hch3 : chans w3 !! logChan l0 = Some (mkChan logs' 10000 true)).
  { transitivity (<[logChan l0 := mkChan logs' 10000 true]> (chans w2)
                    !! logChan l0); [subst w3; by open_world w2|].
    apply list_lookup_insert_eq. by eapply lookup_lt_Some. }
  assert (Hw3 : configs w3 = configs w2 /\ files w3 = files w2 /\
                openFails w3 = openFails w2 /\
                writeFails w3 = writeFails w2 /\ logger w3 = None)
    by (subst w3; by open_world w2).
  destruct Hw3 as (Hc3 & Hf3 & Ho3 & Hwf3 & Hl3).
  destruct (start_run l0 w3 _ (defaulted (GOOS w) c) Hch3)
    as (w4 & Hs4 & _ & Hf4 & _ & Hl4 & _).
  { rewrite Hc3, Hc2, Hcs1. subst l0. cbn [config].
    apply list_lookup_insert_eq. by eapply lookup_lt_Some. }
  cbn [buf closed] in Hs4, Hf4.
  exists w2, w3, w4. split; [done|]. split; [done|]. split; [done|].
  split; [by rewrite Hl4|].
  by rewrite Hf4, Hf3, Hf2, Hf1, Ho3, Ho2, Ho1, Hwf3, Hwf2, Hwf1.
Qed.

Lemma session_persists_passing_entries_witness :
  exists w2 w3 w4,
    submit (Some runningLogger)
      [Log.mk (DateUTC 2025 10 31 12 0 0) "ERROR" "disk full";
       Log.mk (DateUTC 2025 10 31 12 0 1) "TRACE" "not a level";
       Log.mk (DateUTC 2025 10 31 13 0 2) "WARN" "retrying"] running
    = Returned tt w2 /\
    Stop w2 = Returned tt w3 /\
    start 3 runningLogger w3 = Returned false w4 /\
    logger w4 = None /\
    files w4
    = [("/tmp/nexus_2025-10-31T12.log",
        output (Log.mk (DateUTC 2025 10 31 12 0 0) "ERROR" "disk full"));
       ("/tmp/nexus_2025-10-31T13.log",
        output (Log.mk (DateUTC 2025 10 31 13 0 2) "WARN" "retrying"))].
Proof.
  apply (session_persists_passing_entries 0 cfgHour (host cfgHour) running
           runningLogger
           [Log.mk (DateUTC 2025 10 31 12 0 0) "ERROR" "disk full";
            Log.mk (DateUTC 2025 10 31 12 0 1) "TRACE" "not a level";
            Log.mk (DateUTC 2025 10 31 13 0 2) "WARN" "retrying"]);
    by vm_compute.
Defined.

(** ** The fallback period *)

Lemma Stop_configs (w : World) : configs (world_of (Stop w)) = configs w.
Proof.
  unfold Stop, close. run.
  destruct (logger w) as [l|]; [|done]. run.
  destruct (chans w !! logChan l) as [ch|]; [|done].
  destruct (closed ch); [done|]. by open_world w.
Qed.

Lemma start_step_configs (l : Logging) (w : World) :
  configs (world_of (start_step l w)) = configs w.
Proof.
  unfold start_step, load, Fprintf_stderr. run.
  destruct (chans w !! logChan l) as [ch|]; [|done].
  destruct (buf ch) as [|log rest]; [by destruct (closed ch)|].
  destruct (configs _ !! config l) as [c|]; [|by open_world w].
  destruct (bool_decide _); [by open_world w|].
  destruct (bool_decide _); by open_world w.
Qed.

(** A recognised period is not the empty one. *)
Lemma cadence_of_nonempty (per : LogPeriod) :
  is_Some (cadence_of per) -> (per =? "")%string = false.
Proof.
  destruct (String.eqb_spec per "") as [->|]; [|done]. by intros [? [=]].
Qed.

(** [Init] keeps the non-empty period of every configuration. *)
Lemma Init_period (cfg : option nat) (w : World) (p : nat) (c0 : Config.t) :
  configs w !! p = Some c0 -> (Config.FilePeriod c0 =? "")%string = false ->
  exists c1, configs (world_of (Init cfg w)) !! p = Some c1 /\
    Config.FilePeriod c1 = Config.FilePeriod c0.
Proof.
  intros Hp Hne. destruct cfg as [q|].
  - destruct (configs w !! q) as [cq|] eqn:Hq;
      [|rewrite Init_dangling by done; by exists c0].
    rewrite (Init_Some _ _ _ Hq).
    destruct (Config.AppName cq =? "")%string; [by exists c0|]. cbv zeta.
    assert (Hins : exists c1,
               <[q := defaulted (GOOS w) cq]> (configs w) !! p = Some c1 /\
               Config.FilePeriod c1 = Config.FilePeriod c0).
    { destruct (decide (q = p)) as [->|Hqp].
      - exists (defaulted (GOOS w) cq).
        split; [apply list_lookup_insert_eq; by eapply lookup_lt_Some|].
        rewrite defaulted_FilePeriod.
        assert (cq = c0) as -> by congruence. by rewrite Hne.
      - exists c0. by rewrite list_lookup_insert_ne. }
    destruct Hins as (c1 & Hc1 & Hper). exists c1.
    destruct (logLevels !! _); by open_world w.
  - rewrite Init_nil. exists c0. split; [|done]. open_world w.
    apply lookup_app_l_Some. done.
Qed.

(** A call that keeps the period of [p] leaves [p] with its period. *)
Lemma exec_period (p : nat) (c : Call) (w : World) (c0 : Config.t) :
  configs w !! p = Some c0 -> (Config.FilePeriod c0 =? "")%string = false ->
  keeps_period p w c = true ->
  exists c1, configs (world_of (exec c w)) !! p = Some c1 /\
    Config.FilePeriod c1 = Config.FilePeriod c0.
Proof.
  intros Hp Hne Hk.
  assert (Hsame : forall w', configs w' = configs w ->
            exists c1, configs w' !! p = Some c1 /\
              Config.FilePeriod c1 = Config.FilePeriod c0).
  { intros w' ->. by exists c0. }
  destruct c; cbn [exec keeps_period] in *.
  - exists c0. split; [|done]. open_world w. by apply lookup_app_l_Some.
  - unfold store. run. destruct (decide (cfg = p)) as [->|Hqp].
    + rewrite bool_decide_eq_true_2, Hp in Hk by done.
      apply String.eqb_eq in Hk. exists c. split; [|done].
      transitivity (<[p := c]> (configs w) !! p); [by open_world w|].
      apply list_lookup_insert_eq. by eapply lookup_lt_Some.
    + exists c0. split; [|done].
      transitivity (<[cfg := c]> (configs w) !! p); [by open_world w|].
      by rewrite list_lookup_insert_ne.
  - pose proof (Init_period cfg w p c0 Hp Hne) as Hi. revert Hi. run.
    by destruct (Init cfg w).
  - apply Hsame, Stop_configs.
  - apply Hsame. by open_world w.
  - apply Hsame. unfold Error. run. apply addLog_frame.
  - apply Hsame. unfold Info. run. apply addLog_frame.
  - apply Hsame. unfold Debug. run. apply addLog_frame.
  - apply Hsame. unfold Warn. run. apply addLog_frame.
  - apply Hsame. unfold Fatal. run. apply addLog_frame.
  - apply Hsame. pose proof (start_step_configs l w) as Hs. revert Hs. run.
    by destruct (start_step l w).
  - apply Hsame, send_frame.
Qed.

Lemma steps_keeping_period (p : nat) (w w' : World) (c0 : Config.t) :
  steps_keeping p w w' ->
  configs w !! p = Some c0 -> (Config.FilePeriod c0 =? "")%string = false ->
  exists c1, configs w' !! p = Some c1 /\
    Config.FilePeriod c1 = Config.FilePeriod c0.
Proof.
  induction 1 as [w|w w' c Hsteps IH Hk]; intros Hp Hne; [by exists c0|].
  destruct (IH Hp Hne) as (c1 & Hc1 & Hper).
  destruct (exec_period p c w' c1 Hc1) as (c2 & Hc2 & Hper2);
    [by rewrite Hper|done|].
  exists c2. split; [done|]. by rewrite Hper2.
Qed.

(** A writer turn right after the configuration of its logger has been
    overwritten. *)
Lemma overwrite_then_step (l : Logging) (w : World) (ch : Chan) (log : Log.t)
    (rest : list Log.t) (c c' : Config.t) :
  configs w !! config l = Some c ->
  chans w !! logChan l = Some ch -> buf ch = log :: rest ->
  exists w1 w2,
    exec (CallSetConfig (config l) c') w = Returned tt w1 /\
    start_step l w1 = Returned true w2 /\
    files w2
    = files w ++ entry_files (openFails w) (writeFails w) l c' log.
Proof.
  intros Hc Hch Hb.
  set (w1 := set_configs (<[config l := c']> (configs w)) w).
  assert (Hw1 : chans w1 !! logChan l = Some ch /\
                configs w1 !! config l = Some c' /\ files w1 = files w /\
                openFails w1 = openFails w /\ writeFails w1 = writeFails w).
  { split; [subst w1; by open_world w|]. split; [|subst w1; by open_world w].
    transitivity (<[config l := c']> (configs w) !! config l);
      [subst w1; by open_world w|].
    apply list_lookup_insert_eq. by eapply lookup_lt_Some. }
  destruct Hw1 as (Hch1 & Hc1 & Hf1 & Ho1 & Hwf1).
  destruct (start_step_entry_fields _ _ _ _ _ _ Hch1 Hb Hc1)
    as (w2 & Hs & _ & Hf2 & _).
  exists w1, w2. split; [done|]. split; [done|].
  by rewrite Hf2, Hf1, Ho1, Hwf1.
Qed.

(** Claim C9, as the code has it.  For a period that is none of the five
    recognised values, [filename] yields the Day-format name
    nexus_YYYY-MM-DD.log.  [Init] replaces only an empty period, by Hour,
    and the writer reads the period from the caller's configuration at each
    write.  So for a logger [Init] has produced from a configuration whose
    period is empty or recognised, every later write, as long as no call
    overwrites the configuration with another period, reads a recognised
    period (Hour for the empty one) and names the file after it, not by the
    fallback branch.  Once the caller overwrites the configuration with a
    period that is not recognised, the next write does take the fallback
    branch. *)
Theorem filename_fallback_is_day_format :
  (forall cfg t, cadence_of (Config.FilePeriod cfg) = None ->
     filename cfg t
     = "nexus_" +:+ Fmt.appendInt (Year t) 4 +:+ "-"
       +:+ Fmt.appendInt (Month t) 2 +:+ "-" +:+ Fmt.appendInt (Day t) 2
       +:+ ".log" /\
     filename cfg t = filename (Config.withFilePeriod LogPeriodDay cfg) t) /\
  (forall p c w w1 l w2 ch log rest,
     configs w !! p = Some c ->
     Config.FilePeriod c = "" \/ is_Some (cadence_of (Config.FilePeriod c)) ->
     Init (Some p) w = Returned None w1 -> logger w1 = Some l ->
     steps_keeping p w1 w2 ->
     chans w2 !! logChan l = Some ch -> buf ch = log :: rest ->
     exists cad c2 w3,
       cadence_of (if (Config.FilePeriod c =? "")%string then LogPeriodHour
                   else Config.FilePeriod c) = Some cad /\
       configs w2 !! config l = Some c2 /\
       cadence_of (Config.FilePeriod c2) = Some cad /\
       filename c2 (Log.TimeStamp log)
       = nexus (datePart cad (Log.TimeStamp log)) /\
       start_step l w2 = Returned true w3 /\
       files w3
       = files w2 ++ entry_files (openFails w2) (writeFails w2) l c2 log) /\
  (forall l w ch log rest c c',
     configs w !! config l = Some c ->
     chans w !! logChan l = Some ch -> buf ch = log :: rest ->
     cadence_of (Config.FilePeriod c') = None ->
     exists w1 w2,
       exec (CallSetConfig (config l) c') w = Returned tt w1 /\
       start_step l w1 = Returned true w2 /\
       files w2
       = files w ++ entry_files (openFails w) (writeFails w) l c' log /\
       filename c' (Log.TimeStamp log)
       = "nexus_" +:+ Format (Log.TimeStamp log) layoutDay +:+ ".log").
Proof.
  split; [|split].
  - intros cfg t Hc. rewrite (FilenameFacts.filename_fallback _ _ Hc).
    split; [|reflexivity].
    unfold nexus. cbn [Format layoutDay formatChunk].
    by rewrite StrFacts.app_nil_r, !StrFacts.app_assoc.
  - intros p c w w1 l w2 ch log rest Hc Hper Hi Hl Hsteps Hch Hb.
    destruct (Init_success_inv _ _ _ _ Hc Hi) as (_ & lvl & _ & Hw1).
    assert (Hf : logger w1
                 = Some (mkLogging p (Config.Location (defaulted (GOOS w) c))
                           (length (chans w)) lvl) /\
                 configs w1 = <[p := defaulted (GOOS w) c]> (configs w))
      by (subst w1; by open_world w).
    destruct Hf as [Hl1 Hcs1].
    assert (Hp : config l = p) by (rewrite Hl in Hl1; by injection Hl1 as ->).
    assert (Hc1 : configs w1 !! p = Some (defaulted (GOOS w) c)).
    { rewrite Hcs1. apply list_lookup_insert_eq. by eapply lookup_lt_Some. }
    assert (Hcad : is_Some (cadence_of
                              (Config.FilePeriod (defaulted (GOOS w) c)))).
    { rewrite defaulted_FilePeriod.
      destruct (String.eqb_spec (Config.FilePeriod c) ""); [by eexists|].
      by destruct Hper. }
    destruct Hcad as [cad Hcad].
    destruct (steps_keeping_period _ _ _ _ Hsteps Hc1) as (c2 & Hc2 & Hper2);
      [apply cadence_of_nonempty; by eexists|].
    rewrite <- Hp in Hc2.
    assert (Hcad2 : cadence_of (Config.FilePeriod c2) = Some cad)
      by (by rewrite Hper2).
    destruct (start_step_entry_fields _ _ _ _ _ _ Hch Hb Hc2)
      as (w3 & Hs & _ & Hf3 & _).
    exists cad, c2, w3. rewrite <- defaulted_FilePeriod with (goos := GOOS w).
    repeat split; try done.
    by apply FilenameFacts.filename_cadence.
  - intros l w ch log rest c c' Hc Hch Hb Hnone.
    destruct (overwrite_then_step l w ch log rest c c' Hc Hch Hb)
      as (w1 & w2 & He & Hs & Hf).
    exists w1, w2. repeat split; try done.
    by rewrite (FilenameFacts.filename_fallback _ _ Hnone).
Qed.

(** [Init] keeps a non-empty period it does not know, such as "24h": the
    logger it produces takes the fallback branch of [filename]. *)
Lemma Init_keeps_unknown_period :
  ~ (forall p c w w' l c',
       configs w !! p = Some c ->
       Init (Some p) w = Returned None w' ->
       logger w' = Some l -> configs w' !! config l = Some c' ->
       is_Some (cadence_of (Config.FilePeriod c'))).
Proof.
  intros H.
  assert (Hi : exists w' l c',
             Init (Some 0%nat) (host cfg24h) = Returned None w' /\
             logger w' = Some l /\ configs w' !! config l = Some c' /\
             cadence_of (Config.FilePeriod c') = None).
  { eexists _, _, _. split; [by vm_compute|]. by repeat split. }
  destruct Hi as (w' & l & c' & Hi & Hl & Hc' & Hnone).
  destruct (H 0%nat cfg24h (host cfg24h) w' l c' eq_refl Hi Hl Hc') as [x Hx].
  congruence.
Qed.

Lemma filename_fallback_is_day_format_witness :
  filename cfg24h (DateUTC 2024 1 31 10 20 30) = "nexus_2024-01-31.log" /\
  (exists cad c2 w3,
     cadence_of LogPeriodHour = Some cad /\
     configs (world_of (Error (DateUTC 2025 10 31 12 0 0) "disk full" running))
       !! config runningLogger = Some c2 /\
     cadence_of (Config.FilePeriod c2) = Some cad /\
     filename c2 (DateUTC 2025 10 31 12 0 0)
     = nexus (datePart cad (DateUTC 2025 10 31 12 0 0)) /\
     start_step runningLogger
       (world_of (Error (DateUTC 2025 10 31 12 0 0) "disk full" running))
     = Returned true w3 /\
     files w3
     = [("/tmp/nexus_2025-10-31T12.log",
         output (Log.mk (DateUTC 2025 10 31 12 0 0) "ERROR" "disk full"))]) /\
  (exists w1 w2,
     exec (CallSetConfig 0%nat cfg24h)
       (world_of (Error (DateUTC 2025 10 31 12 0 0) "disk full" running))
     = Returned tt w1 /\
     start_step runningLogger w1 = Returned true w2 /\
     files w2
     = [("/tmp/nexus_2025-10-31.log",
         output (Log.mk (DateUTC 2025 10 31 12 0 0) "ERROR" "disk full"))]).
Proof.
  destruct filename_fallback_is_day_format as (H1 & H2 & H3).
  split; [|split].
  - destruct (H1 cfg24h (DateUTC 2024 1 31 10 20 30)) as [-> _];
      reflexivity.
  - destruct (H2 0%nat cfgHour (host cfgHour) running runningLogger
                (world_of (exec (CallError (DateUTC 2025 10 31 12 0 0)
                                   "disk full") running))
                (mkChan [Log.mk (DateUTC 2025 10 31 12 0 0) "ERROR"
                           "disk full"] 10000 false)
                (Log.mk (DateUTC 2025 10 31 12 0 0) "ERROR" "disk full") [])
      as (cad & c2 & w3 & Hcad & Hc2 & Hcad2 & Hfn & Hs & Hf).
    + reflexivity.
    + right. by eexists.
    + by vm_compute.
    + by vm_compute.
    + apply keeping_step; [apply keeping_refl|reflexivity].
    + by vm_compute.
    + reflexivity.
    + assert (c2 = cfgHour)
        by (vm_compute in Hc2; injection Hc2 as <-; reflexivity).
      assert (cad = Hourly)
        by (vm_compute in Hcad; injection Hcad as <-; reflexivity).
      subst c2 cad. exists Hourly, cfgHour, w3.
      split; [reflexivity|]. split; [exact Hc2|]. split; [reflexivity|].
      split; [exact Hfn|]. split; [exact Hs|]. rewrite Hf. by vm_compute.
  - destruct (H3 runningLogger
                (world_of (Error (DateUTC 2025 10 31 12 0 0) "disk full"
                             running))
                (mkChan [Log.mk (DateUTC 2025 10 31 12 0 0) "ERROR"
                           "disk full"] 10000 false)
                (Log.mk (DateUTC 2025 10 31 12 0 0) "ERROR" "disk full") []
                cfgHour cfg24h)
      as (w1 & w2 & He & Hs & Hf & _); [by vm_compute..|].
    exists w1, w2. split; [exact He|]. split; [exact Hs|].
    rewrite Hf. by vm_compute.
Defined.
